(** * Parametrized Expectations Algorithm (PEA_ncgm.ipynb)

    A shallow embedding of the numerical cells of the notebook: the shock
    simulation, the Hermite basis ([hermterms], [hermpoly]), the residual
    sum of squares ([rss]) and the main fixed-point loop.

    Conventions of the embedding.
    - NumPy [float64] values are idealised as real numbers ([R]); [np.exp],
      [np.log] and [**] are [exp], [ln] and [Rpower].  The idealisation is
      faithful on positive arguments of [ln] and positive bases of [Rpower]
      only: where capital is not positive the notebook computes [nan] and
      the model some real number, so the statements below either relate
      the entries symbolically or assume the positivity they need.
    - Python integers (orders, lengths, loop counters, indices) are [Z];
      negative indices wrap as in Python.
    - A Python exception is a [Raise] in the [result] monad.
    - A 1-D array is a list; a 2-D array is stored by columns together with
      its row count, because the notebook only reads and writes whole
      columns ([hx[:,j]], [x[:,0]], [polymat[:,j]]).
    - [scipy.optimize.minimize] is a section variable: an arbitrary function
      of the objective and the starting point. *)

From Stdlib Require Import ZArith Lia Reals Lra.
From stdpp Require Import base list.

#[local] Open Scope R_scope.

(** ** Exceptions *)

Inductive exn : Set := IndexError | ValueError.

Inductive result (A : Type) : Type :=
| Ok (a : A)
| Raise (e : exn).
Arguments Ok {A} a.
Arguments Raise {A} e.

#[global] Instance result_ret : MRet result := fun _ a => Ok a.
#[global] Instance result_bind : MBind result := fun _ _ f m =>
  match m with Ok a => f a | Raise e => Raise e end.

(** [for i in l: s = body(i, s)], stopping at the first exception. *)
Fixpoint for_in {S : Type} (l : list Z) (body : Z -> S -> result S) (s : S)
  : result S :=
  match l with
  | [] => Ok s
  | i :: l' => s' ← body i s; for_in l' body s'
  end.

(** [range(lo, hi)] *)
Definition py_range (lo hi : Z) : list Z := seqZ lo (hi - lo).

(** ** One-dimensional arrays *)

Abbreviation vec := (list R).

(** Index normalisation of a Python sequence of length [len]. *)
Definition py_index (len : nat) (i : Z) : result nat :=
  if ((0 <=? i) && (i <? Z.of_nat len))%Z then Ok (Z.to_nat i)
  else if ((- Z.of_nat len <=? i) && (i <? 0))%Z then Ok (Z.to_nat (i + Z.of_nat len))
  else Raise IndexError.

Definition getitem (a : vec) (i : Z) : result R :=
  n ← py_index (length a) i;
  match a !! n with Some v => Ok v | None => Raise IndexError end.

Definition setitem (a : vec) (i : Z) (v : R) : result vec :=
  n ← py_index (length a) i; Ok (<[n:=v]> a).

(** [a[i] = v] where [v] is an array: NumPy accepts it when [v] holds exactly
    one element. *)
Definition setitem_arr (a : vec) (i : Z) (v : vec) : result vec :=
  match v with
  | [e] => setitem a i e
  | _ => Raise ValueError
  end.

(** Bound of a slice: negative bounds count from the end, then clamp. *)
Definition slice_bound (len : nat) (i : Z) : nat :=
  Z.to_nat (Z.max 0 (Z.min (Z.of_nat len) (if (i <? 0)%Z then i + Z.of_nat len else i))).

(** [a[lo:hi]] *)
Definition slice (a : vec) (lo hi : Z) : vec :=
  let s := slice_bound (length a) lo in
  let e := slice_bound (length a) hi in
  take (e - s) (drop s a).

(** [np.zeros(n)] *)
Definition np_zeros (n : Z) : result vec :=
  if (n <? 0)%Z then Raise ValueError else Ok (replicate (Z.to_nat n) 0).

(** Element-wise binary operation on 1-D arrays, with NumPy broadcasting. *)
Definition broadcast (f : R -> R -> R) (u v : vec) : result vec :=
  if (length u =? length v)%nat then Ok (zip_with f u v)
  else match u, v with
       | [a], _ => Ok (map (f a) v)
       | _, [b] => Ok (map (fun a => f a b) u)
       | _, _ => Raise ValueError
       end.

Definition vsum (u : vec) : R := foldr Rplus 0 u.

(** [np.dot] of two 1-D arrays. *)
Definition inner (u v : vec) : result R :=
  if (length u =? length v)%nat then Ok (vsum (zip_with Rmult u v))
  else Raise ValueError.

(** [np.linalg.norm] of a 1-D array. *)
Definition norm (u : vec) : R := sqrt (vsum (map (fun a => a * a) u)).

(** ** Two-dimensional arrays *)

Record matrix : Type := Matrix { nrows : nat; cols : list vec }.

(** Row [i] of a matrix. *)
Definition row (i : nat) (M : matrix) : vec :=
  map (fun col => default 0 (col !! i)) (cols M).

(** [np.ones((n, m))] and [np.zeros((n, m))] *)
Definition np_full (v : R) (n : nat) (m : Z) : result matrix :=
  if (m <? 0)%Z then Raise ValueError
  else Ok (Matrix n (replicate (Z.to_nat m) (replicate n v))).

(** [M[:, j]] *)
Definition get_col (M : matrix) (j : Z) : result vec :=
  n ← py_index (length (cols M)) j;
  match cols M !! n with Some v => Ok v | None => Raise IndexError end.

(** [M[:, j] = v] *)
Definition set_col (M : matrix) (j : Z) (v : vec) : result matrix :=
  n ← py_index (length (cols M)) j;
  if (length v =? nrows M)%nat then Ok (Matrix (nrows M) (<[n:=v]> (cols M)))
  else match v with
       | [a] => Ok (Matrix (nrows M) (<[n:=replicate (nrows M) a]> (cols M)))
       | _ => Raise ValueError
       end.

(** [np.dot(M, v)] for a 2-D [M] and a 1-D [v]. *)
Definition np_dot (M : matrix) (v : vec) : result vec :=
  if (length (cols M) =? length v)%nat
  then Ok (map (fun i => vsum (zip_with Rmult (row i M) v)) (seq 0 (nrows M)))
  else Raise ValueError.

(** [np.array([u, v]).T]: the two sequences become the two columns. *)
Definition columns2 (u v : vec) : result matrix :=
  if (length u =? length v)%nat then Ok (Matrix (length u) [u; v])
  else Raise ValueError.

(** ** The Hermite basis *)

(** Body of the loop of [hermterms]:
    [hx[:,j] = x * hx[:,j-1] - j * hx[:,j-2]]. *)
Definition hermterms_step (x : vec) (j : Z) (hx : matrix) : result matrix :=
  h1 ← get_col hx (j - 1);
  a ← broadcast Rmult x h1;
  h2 ← get_col hx (j - 2);
  r ← broadcast Rminus a (map (Rmult (IZR j)) h2);
  set_col hx j r.

Definition hermterms (porder : Z) (x : vec) : result matrix :=
  hx ← np_full 1 (length x) (porder + 1);
  hx ← set_col hx 1 x;
  if (2 <=? porder)%Z
  then for_in (py_range 2 (porder + 1)) (hermterms_step x) hx
  else Ok hx.

(** Body of the double loop of [hermpoly]:
    [polymat[:,jk*(porder_z+1)+jz] = hk[:,jk] * hz[:,jz]]. *)
Definition hermpoly_cell (porder_z : Z) (hk hz : matrix) (jk jz : Z)
    (polymat : matrix) : result matrix :=
  a ← get_col hk jk;
  b ← get_col hz jz;
  p ← broadcast Rmult a b;
  set_col polymat (jk * (porder_z + 1) + jz) p.

Definition hermpoly (porder : Z * Z) (x : matrix) : result matrix :=
  let porder_k := porder.1 in
  let porder_z := porder.2 in
  x0 ← get_col x 0;
  hk ← hermterms porder_k x0;
  x1 ← get_col x 1;
  hz ← hermterms porder_z x1;
  polymat ← np_full 0 (nrows x) ((porder_k + 1) * (porder_z + 1));
  for_in (py_range 0 (porder_k + 1))
    (fun jk => for_in (py_range 0 (porder_z + 1)) (hermpoly_cell porder_z hk hz jk))
    polymat.

(** ** The residual sum of squares *)

(** [np.dot((Y-np.exp(np.dot(X,coef))).T, (Y-np.exp(np.dot(X,coef))))];
    the transpose of a 1-D array is the array itself. *)
Definition rss (coef Y : vec) (X : matrix) : result R :=
  xc ← np_dot X coef;
  r1 ← broadcast Rminus Y (map exp xc);
  xc' ← np_dot X coef;
  r2 ← broadcast Rminus Y (map exp xc');
  inner r1 r2.

(** ** Parameters and steady state *)

Record params : Type := Params {
  alpha : R;        (* capital share *)
  beta : R;         (* time discount factor *)
  nu : R;           (* risk aversion *)
  delta : R;        (* depreciation rate *)
  sigma : R;        (* standard deviation of the log noise *)
  rho : R;          (* persistence of the log technology shock *)
  T : Z;            (* total length of the simulation *)
  T1 : Z;           (* first observation used *)
  porder_k : Z;     (* order of the polynomial in k *)
  porder_z : Z;     (* order of the polynomial in z *)
  maxiter : Z;      (* maximum number of iterations *)
  psitol : R;       (* convergence criterion *)
  lrate : R         (* updating rate of the coefficients *)
}.

(** [k_ss = ((1-beta+delta*beta) / (alpha*beta))**(1/(alpha-1))] *)
Definition k_ss (p : params) : R :=
  Rpower ((1 - beta p + delta p * beta p) / (alpha p * beta p)) (1 / (alpha p - 1)).

(** ** The exogenous process *)

(** [lnz[t] = rho*lnz[t-1] + epsi[t]] *)
Definition shock_step (p : params) (epsi : vec) (t : Z) (lnz : vec) : result vec :=
  prev ← getitem lnz (t - 1);
  e ← getitem epsi t;
  setitem lnz t (rho p * prev + e).

(** The cell simulating the exogenous process; [draws] stands for the
    outcome of [np.random.randn(T,1)].  Returns [(lnz, z)]. *)
Definition simulate_shocks (p : params) (draws : vec) : result (vec * vec) :=
  let epsi := map (fun e => e * sigma p) draws in
  lnz ← np_zeros (T p);
  lnz ← setitem lnz 0 0;
  lnz ← for_in (py_range 1 (T p)) (shock_step p epsi) lnz;
  Ok (lnz, map exp lnz).

(** ** The main loop *)

(** The arrays and the coefficients the main loop mutates. *)
Record state : Type := State { c : vec; k : vec; lnk : vec; psi : vec }.

(** [c = np.zeros(T)], [k = np.zeros(T)], [lnk = np.zeros(T)] and the
    initial coefficients. *)
Definition init_state (p : params) (psi0 : vec) : result state :=
  c0 ← np_zeros (T p);
  k0 ← np_zeros (T p);
  lnk0 ← np_zeros (T p);
  Ok (State c0 k0 lnk0 psi0).

(** Body of the time loop. *)
Definition sim_step (p : params) (lnz z : vec) (t : Z) (st : state) : result state :=
  kl ← getitem (k st) (t - 1);
  lnk' ← setitem (lnk st) (t - 1) (ln kl);
  a ← getitem lnk' (t - 1);
  b ← getitem lnz (t - 1);
  polynomial ← hermpoly (porder_k p, porder_z p) (Matrix 1 [[a]; [b]]);
  d ← np_dot polynomial (psi st);
  c' ← setitem_arr (c st) t (map (fun v => exp (- v / nu p)) d);
  zt ← getitem z t;
  ka ← getitem (k st) (t - 1);
  kb ← getitem (k st) (t - 1);
  ct ← getitem c' t;
  k' ← setitem (k st) t (zt * Rpower ka (alpha p) + (1 - delta p) * kb - ct);
  Ok (State c' k' lnk' (psi st)).

(** The simulation part of one pass of the main loop. *)
Definition simulate (p : params) (lnz z : vec) (st : state) : result state :=
  k0 ← setitem (k st) 0 (k_ss p);
  v ← getitem k0 0;
  lnk0 ← setitem (lnk st) 0 (ln v);
  for_in (py_range 1 (T p)) (sim_step p lnz z) (State (c st) k0 lnk0 (psi st)).

(** The regression sample [(Y, X)] of one pass. *)
Definition build_sample (p : params) (lnz z : vec) (st : state)
  : result (vec * matrix) :=
  let lhs := map (fun v => beta p * Rpower v (- nu p)) (slice (c st) (T1 p) (T p)) in
  let az := map (fun v => alpha p * v) (slice z (T1 p) (T p)) in
  let kp := map (fun v => Rpower v (alpha p - 1)) (slice (k st) (T1 p - 1) (T p - 1)) in
  m ← broadcast Rmult az kp;
  Y ← broadcast Rmult lhs (map (fun v => v + 1 - delta p) m);
  x ← columns2 (slice (lnk st) (T1 p - 2) (T p - 2)) (slice lnz (T1 p - 1) (T p - 1));
  X ← hermpoly (porder_k p, porder_z p) x;
  Ok (Y, X).

Section MainLoop.

(** [opt.minimize(f, x0, method='Nelder-Mead', ...).x], as a black box. *)
Variable minimize : (vec -> result R) -> vec -> result vec.

(** Simulation, sample and fit of one pass: the state after the
    simulation and the fitted coefficients [psi_out]. *)
Definition candidate (p : params) (lnz z : vec) (st : state)
  : result (state * vec) :=
  st' ← simulate p lnz z st;
  '(Y, X) ← build_sample p lnz z st';
  psi_out ← minimize (fun coef => rss coef Y X) (psi st');
  Ok (st', psi_out).

(** One pass of the main loop; the boolean tells whether [break] was
    executed. *)
Definition pass (p : params) (lnz z : vec) (st : state) : result (state * bool) :=
  '(st', psi_out) ← candidate p lnz z st;
  diff ← broadcast Rminus (psi st') psi_out;
  let delpsi := norm diff in
  if Rlt_dec delpsi (psitol p) then Ok (st', true)
  else
    new ← broadcast Rplus (map (Rmult (lrate p)) psi_out)
                          (map (Rmult (1 - lrate p)) (psi st'));
    Ok (State (c st') (k st') (lnk st') new, false).

(** [for psiter in range(maxiter): ...], with [n] passes left. *)
Fixpoint main_loop (n : nat) (p : params) (lnz z : vec) (st : state)
  : result (state * bool) :=
  match n with
  | O => Ok (st, false)
  | S n' =>
      '(st', broke) ← pass p lnz z st;
      if broke : bool then Ok (st', true) else main_loop n' p lnz z st'
  end.

(** The notebook from the shock cell to the end of the main loop. *)
Definition run (p : params) (draws psi0 : vec) : result (state * bool) :=
  '(lnz, z) ← simulate_shocks p draws;
  st ← init_state p psi0;
  main_loop (Z.to_nat (maxiter p)) p lnz z st.

End MainLoop.

(** ** Reference definitions used in the statements *)

(** The two lines of the time loop that evaluate the polynomial at one
    point [(a, b)] and apply the coefficients:
    [np.dot(hermpoly([porder_k, porder_z], np.array([[a, b]])), coef)]. *)
Definition basis_dot (p : params) (a b : R) (coef : vec) : result vec :=
  polynomial ← hermpoly (porder_k p, porder_z p) (Matrix 1 [[a]; [b]]);
  np_dot polynomial coef.

(** Shapes under which the main loop runs: orders of at least one, [T]
    periods in every series and one coefficient per basis column. *)
Record shapes_ok (p : params) (lnz z : vec) (st : state) : Prop := ShapesOk {
  shape_pk : (1 <= porder_k p)%Z;
  shape_pz : (1 <= porder_z p)%Z;
  shape_T : (1 <= T p)%Z;
  shape_lnz : Z.of_nat (length lnz) = T p;
  shape_z : Z.of_nat (length z) = T p;
  shape_c : Z.of_nat (length (c st)) = T p;
  shape_k : Z.of_nat (length (k st)) = T p;
  shape_lnk : Z.of_nat (length (lnk st)) = T p;
  shape_psi : Z.of_nat (length (psi st)) = ((porder_k p + 1) * (porder_z p + 1))%Z
}.

(** The relation the time loop establishes between the periods [t] and
    [t+1] of a trajectory. *)
Definition trajectory_at (p : params) (lnz z : vec) (st : state) (t : nat) : Prop :=
  exists kp lz zt d,
    k st !! t = Some kp /\ lnk st !! t = Some (ln kp) /\ lnz !! t = Some lz
    /\ z !! S t = Some zt
    /\ basis_dot p (ln kp) lz (psi st) = Ok [d]
    /\ c st !! S t = Some (exp (- d / nu p))
    /\ k st !! S t
       = Some (zt * Rpower kp (alpha p) + (1 - delta p) * kp - exp (- d / nu p)).

(** The value the loop of [hermterms] stores in column [j] at a point [x]:
    the pair [(h_j, h_{j+1})], with [h_{j+2} = x*h_{j+1} - (j+2)*h_j]. *)
Fixpoint hermterm_pair (j : nat) (x : R) : R * R :=
  match j with
  | O => (1, x)
  | S j' => let '(a, b) := hermterm_pair j' x in
            (b, x * b - IZR (Z.of_nat (S (S j'))) * a)
  end.

Definition hermterm (j : nat) (x : R) : R := (hermterm_pair j x).1.

(** The columns [hermterms] has filled when its loop reaches [j]. *)
Definition hermterms_cols (x : vec) (j : nat) : list vec :=
  map (fun i => map (hermterm i) x) (seq 0 j).

(** The columns [hermpoly] has filled after [pos] assignments, for points
    [xk], [xz] and [w = porder_z + 1]: column [idx] is the product of the
    terms of index [idx / w] in k and [idx mod w] in z. *)
Definition hermpoly_cols (w : nat) (xk xz : vec) (pos : nat) : list vec :=
  map (fun idx => zip_with Rmult (map (hermterm (idx / w)) xk)
                                 (map (hermterm (idx mod w)) xz))
      (seq 0 pos).

(** The row of [hermpoly_cols] at one point [(a, b)]. *)
Definition basis_row (w m : nat) (a b : R) : vec :=
  map (fun idx => hermterm (idx / w) a * hermterm (idx mod w) b) (seq 0 m).

(** The probabilists' Hermite polynomials as the specification (and the
    notebook's text) define them: [H_0 = 1], [H_1 = x],
    [H_{j+1} = x*H_j - j*H_{j-1}]; the pair is [(H_j, H_{j+1})]. *)
Fixpoint He_pair (j : nat) (x : R) : R * R :=
  match j with
  | O => (1, x)
  | S j' => let '(a, b) := He_pair j' x in
            (b, x * b - IZR (Z.of_nat (S j')) * a)
  end.

Definition He (j : nat) (x : R) : R := (He_pair j x).1.

(** [basisRow(order, x)] as the specification words it. *)
Definition basisRow_spec (order : nat) (x : R) : vec :=
  map (fun j => He j x) (seq 0 (S order)).

(** The objective as the specification words it: the sum over the rows of
    [(Y - exp(X.psi))^2]. *)
Definition rss_spec (coef Y : vec) (X : matrix) : R :=
  vsum (map (fun i => (default 0 (Y !! i)
                       - exp (vsum (zip_with Rmult (row i X) coef))) ^ 2)
            (seq 0 (nrows X))).

(** ** Concrete inputs of the examples *)

(** Parameters with [(1-beta+delta*beta)/(alpha*beta) = 1], hence a steady
    state capital of one; basis orders (1, 1), [T1 = 2], one pass. *)
Definition demo_params (periods : Z) : params :=
  Params (1/2) (4/5) 3 (1/4) 1 (1/2) periods 2 1 1 1 2 (1/2).

(** A minimizer that returns its starting point. *)
Definition minimize_keep : (vec -> result R) -> vec -> result vec :=
  fun _ x0 => Ok x0.

(** A minimizer that moves the first coordinate of its starting point by
    one. *)
Definition minimize_bump : (vec -> result R) -> vec -> result vec :=
  fun _ x0 => Ok (match x0 with a :: r => (a + 1) :: r | [] => [] end).

(** Series of [n] periods at rest and a state over them. *)
Definition demo_lnz (n : nat) : vec := replicate n 0.
Definition demo_z (n : nat) : vec := replicate n 1.
Definition demo_state (n : nat) (psi0 : vec) : state :=
  State (replicate n 0) (replicate n 0) (replicate n 0) psi0.

(** ** The rest of the notebook's cells *)

(** [c_ss = k_ss**alpha - delta*k_ss] *)
Definition c_ss (p : params) : R :=
  Rpower (k_ss p) (alpha p) - delta p * k_ss p.

(** The values of the two parameter cells. *)
Definition notebook_params : params :=
  Params 0.33 0.99 3 0.025 0.02 0.95 2000 501 1 1 2000 1e-6 0.7.

(** ** Basic facts about the monad, loops and arrays *)

Lemma bind_Ok {A B} (f : A -> result B) (a : A) : (Ok a ≫= f) = f a.
Proof. reflexivity. Qed.

Lemma py_range_nil (lo hi : Z) : (hi <= lo)%Z -> py_range lo hi = [].
Proof.
  intros H. unfold py_range, seqZ.
  replace (Z.to_nat (hi - lo)) with 0%nat by lia. reflexivity.
Qed.

Lemma py_range_cons (lo hi : Z) :
  (lo < hi)%Z -> py_range lo hi = lo :: py_range (lo + 1) hi.
Proof.
  intros H. unfold py_range. rewrite seqZ_cons by lia.
  f_equal. f_equal; lia.
Qed.

(** Invariant rule for a loop over [range(lo, hi)] whose body never raises
    under the invariant. *)
Lemma for_in_range_inv {S} (P : Z -> S -> Prop) (body : Z -> S -> result S)
    (lo hi : Z) (s : S) :
  (lo <= hi)%Z ->
  P lo s ->
  (forall i s0, (lo <= i < hi)%Z -> P i s0 ->
                exists s1, body i s0 = Ok s1 /\ P (i + 1)%Z s1) ->
  exists s', for_in (py_range lo hi) body s = Ok s' /\ P hi s'.
Proof.
  intros Hle HP Hstep.
  remember (Z.to_nat (hi - lo)) as n eqn:Hn.
  revert lo s Hle HP Hstep Hn.
  induction n as [|n IH]; intros lo s Hle HP Hstep Hn.
  - assert (lo = hi) as -> by lia.
    rewrite py_range_nil by lia. eauto.
  - rewrite py_range_cons by lia. simpl.
    destruct (Hstep lo s ltac:(lia) HP) as (s1 & -> & HP1). simpl.
    apply IH; [lia | assumption | | lia].
    intros i s0 Hi. apply Hstep. lia.
Qed.

Lemma py_index_ok (len : nat) (i : Z) :
  (0 <= i < Z.of_nat len)%Z -> py_index len i = Ok (Z.to_nat i).
Proof.
  intros [H1 H2]. unfold py_index.
  apply Z.leb_le in H1. apply Z.ltb_lt in H2. rewrite H1, H2. reflexivity.
Qed.

Lemma getitem_ok (a : vec) (i : Z) (v : R) :
  (0 <= i)%Z -> a !! Z.to_nat i = Some v -> getitem a i = Ok v.
Proof.
  intros Hi Hv. unfold getitem.
  rewrite py_index_ok; [simpl; rewrite Hv; reflexivity|].
  apply lookup_lt_Some in Hv. lia.
Qed.

Lemma setitem_ok (a : vec) (i : Z) (v : R) :
  (0 <= i < Z.of_nat (length a))%Z -> setitem a i v = Ok (<[Z.to_nat i:=v]> a).
Proof. intros Hi. unfold setitem. rewrite py_index_ok by assumption. reflexivity. Qed.

Lemma get_col_ok (M : matrix) (j : Z) (v : vec) :
  (0 <= j)%Z -> cols M !! Z.to_nat j = Some v -> get_col M j = Ok v.
Proof.
  intros Hj Hv. unfold get_col.
  rewrite py_index_ok; [simpl; rewrite Hv; reflexivity|].
  apply lookup_lt_Some in Hv. lia.
Qed.

Lemma set_col_ok (M : matrix) (j : Z) (v : vec) :
  (0 <= j < Z.of_nat (length (cols M)))%Z -> length v = nrows M ->
  set_col M j v = Ok (Matrix (nrows M) (<[Z.to_nat j:=v]> (cols M))).
Proof.
  intros Hj Hv. unfold set_col. rewrite py_index_ok by assumption. simpl.
  rewrite Hv, Nat.eqb_refl. reflexivity.
Qed.

Lemma broadcast_same (f : R -> R -> R) (u v : vec) :
  length u = length v -> broadcast f u v = Ok (zip_with f u v).
Proof. intros H. unfold broadcast. rewrite H, Nat.eqb_refl. reflexivity. Qed.

(** ** The Hermite terms *)

Lemma hermterm_0 (x : R) : hermterm 0 x = 1.
Proof. reflexivity. Qed.

Lemma hermterm_1 (x : R) : hermterm 1 x = x.
Proof. reflexivity. Qed.

Lemma hermterm_SS (n : nat) (x : R) :
  hermterm (S (S n)) x
  = x * hermterm (S n) x - IZR (Z.of_nat (S (S n))) * hermterm n x.
Proof.
  unfold hermterm. simpl hermterm_pair.
  destruct (hermterm_pair n x) as [a b]. reflexivity.
Qed.

Lemma He_SS (n : nat) (x : R) :
  He (S (S n)) x = x * He (S n) x - IZR (Z.of_nat (S n)) * He n x.
Proof.
  unfold He. simpl He_pair.
  destruct (He_pair n x) as [a b]. reflexivity.
Qed.

Lemma zip_with_map_map {A} (f : R -> R -> R) (g h : A -> R) (l : list A) :
  zip_with f (map g l) (map h l) = map (fun a => f (g a) (h a)) l.
Proof. induction l as [|a l IH]; simpl; [reflexivity | f_equal; exact IH]. Qed.

Lemma map_hermterm_0 (x : vec) : map (hermterm 0) x = replicate (length x) 1.
Proof. induction x as [|a x IH]; simpl; [reflexivity | f_equal; exact IH]. Qed.

Lemma map_hermterm_1 (x : vec) : map (hermterm 1) x = x.
Proof. induction x as [|a x IH]; simpl; [reflexivity | f_equal; exact IH]. Qed.

Lemma hermterms_cols_S (x : vec) (j : nat) :
  hermterms_cols x (S j) = hermterms_cols x j ++ [map (hermterm j) x].
Proof. unfold hermterms_cols. rewrite seq_S, map_app. reflexivity. Qed.

Lemma hermterms_cols_length (x : vec) (j : nat) : length (hermterms_cols x j) = j.
Proof. unfold hermterms_cols. rewrite length_map, length_seq. reflexivity. Qed.

Lemma hermterms_cols_lookup (x : vec) (j i : nat) :
  (i < j)%nat -> hermterms_cols x j !! i = Some (map (hermterm i) x).
Proof.
  intros H. unfold hermterms_cols. rewrite list_lookup_fmap.
  rewrite lookup_seq_lt by assumption. reflexivity.
Qed.

Lemma hermterms_step_ok (x : vec) (porder j : Z) (hx : matrix) :
  (2 <= j <= porder)%Z ->
  hx = Matrix (length x)
         (hermterms_cols x (Z.to_nat j)
          ++ replicate (Z.to_nat (porder + 1 - j)) (replicate (length x) 1)) ->
  hermterms_step x j hx
  = Ok (Matrix (length x)
          (hermterms_cols x (Z.to_nat (j + 1))
           ++ replicate (Z.to_nat (porder + 1 - (j + 1))) (replicate (length x) 1))).
Proof.
  intros Hj ->. unfold hermterms_step.
  rewrite (get_col_ok _ (j - 1) (map (hermterm (Z.to_nat (j - 1))) x)); [|lia|]; cycle 1.
  { simpl. rewrite lookup_app_l by (rewrite hermterms_cols_length; lia).
    apply hermterms_cols_lookup. lia. }
  rewrite bind_Ok, broadcast_same by (rewrite length_map; reflexivity).
  rewrite bind_Ok.
  rewrite (get_col_ok _ (j - 2) (map (hermterm (Z.to_nat (j - 2))) x)); [|lia|]; cycle 1.
  { simpl. rewrite lookup_app_l by (rewrite hermterms_cols_length; lia).
    apply hermterms_cols_lookup. lia. }
  rewrite bind_Ok, broadcast_same by (rewrite length_zip_with, !length_map; lia).
  rewrite bind_Ok, set_col_ok; cycle 1.
  { simpl. rewrite length_app, hermterms_cols_length, length_replicate. lia. }
  { simpl. rewrite length_zip_with, length_zip_with, !length_map. lia. }
  simpl. f_equal. f_equal.
  replace (Z.to_nat (j + 1)) with (S (Z.to_nat j)) by lia.
  replace (Z.to_nat (porder + 1 - j))
    with (S (Z.to_nat (porder + 1 - (j + 1)))) by lia.
  rewrite hermterms_cols_S, <- app_assoc. simpl.
  rewrite insert_app_r_alt by (rewrite hermterms_cols_length; lia).
  rewrite hermterms_cols_length, Nat.sub_diag. simpl. f_equal. f_equal.
  rewrite <- (map_id x) at 1. rewrite zip_with_map_map.
  rewrite map_map, zip_with_map_map.
  apply map_ext. intros a.
  replace (Z.to_nat j) with (S (S (Z.to_nat (j - 2)))) by lia.
  rewrite hermterm_SS.
  replace (Z.to_nat (j - 1)) with (S (Z.to_nat (j - 2))) by lia.
  replace (Z.of_nat (S (S (Z.to_nat (j - 2))))) with j by lia.
  reflexivity.
Qed.

(** For an order of at least one, [hermterms] returns the matrix whose
    column [j] holds [hermterm j] at every point of [x]. *)
Lemma hermterms_ok (porder : Z) (x : vec) :
  (1 <= porder)%Z ->
  hermterms porder x
  = Ok (Matrix (length x) (hermterms_cols x (Z.to_nat (porder + 1)))).
Proof.
  intros Hp. unfold hermterms, np_full.
  destruct (Z.ltb_spec (porder + 1) 0) as [?|_]; [lia|].
  rewrite bind_Ok, set_col_ok; cycle 1.
  { simpl. rewrite length_replicate. lia. }
  { reflexivity. }
  rewrite bind_Ok. simpl nrows. simpl cols.
  assert (<[Z.to_nat 1:=x]> (replicate (Z.to_nat (porder + 1)) (replicate (length x) 1))
          = hermterms_cols x 2
            ++ replicate (Z.to_nat (porder + 1 - 2)) (replicate (length x) 1)) as ->.
  { replace (Z.to_nat (porder + 1)) with (S (S (Z.to_nat (porder + 1 - 2)))) by lia.
    unfold hermterms_cols. simpl. f_equal; [|f_equal].
    - symmetry. apply map_hermterm_0.
    - symmetry. apply map_hermterm_1. }
  destruct (Z.leb_spec 2 porder) as [H2|H2].
  - destruct (for_in_range_inv
                (fun j hx => hx = Matrix (length x)
                   (hermterms_cols x (Z.to_nat j)
                    ++ replicate (Z.to_nat (porder + 1 - j)) (replicate (length x) 1)))
                (hermterms_step x) 2 (porder + 1)
                (Matrix (length x)
                   (hermterms_cols x 2
                    ++ replicate (Z.to_nat (porder + 1 - 2)) (replicate (length x) 1))))
      as (hx & -> & ->); [lia | reflexivity | |].
    + intros j s0 Hj Hs0. eexists. split; [|reflexivity].
      apply hermterms_step_ok; [lia | exact Hs0].
    + replace (Z.to_nat (porder + 1 - (porder + 1))) with 0%nat by lia.
      simpl. rewrite app_nil_r. reflexivity.
  - assert (porder = 1%Z) as -> by lia. simpl. reflexivity.
Qed.

(** [hermterms] fails on the orders below one. *)
Lemma hermterms_order0 (x : vec) : hermterms 0 x = Raise IndexError.
Proof. reflexivity. Qed.

Lemma hermterms_negative (porder : Z) (x : vec) :
  (porder < 0)%Z -> exists e, hermterms porder x = Raise e.
Proof.
  intros Hp. unfold hermterms, np_full.
  destruct (Z.ltb_spec (porder + 1) 0) as [?|H0]; [eexists; reflexivity|].
  assert (porder = (-1)%Z) as -> by lia. eexists; reflexivity.
Qed.

Lemma hermterms_order1 (x : vec) :
  hermterms 1 x = Ok (Matrix (length x) [replicate (length x) 1; x]).
Proof.
  rewrite hermterms_ok by lia. unfold hermterms_cols. simpl.
  rewrite map_hermterm_0, map_hermterm_1. reflexivity.
Qed.

(** ** The tensor basis *)

Lemma hermpoly_cols_S (w : nat) (xk xz : vec) (pos : nat) :
  hermpoly_cols w xk xz (S pos)
  = hermpoly_cols w xk xz pos
    ++ [zip_with Rmult (map (hermterm (pos / w)) xk) (map (hermterm (pos mod w)) xz)].
Proof. unfold hermpoly_cols. rewrite seq_S, map_app. reflexivity. Qed.

Lemma hermpoly_cols_length (w : nat) (xk xz : vec) (pos : nat) :
  length (hermpoly_cols w xk xz pos) = pos.
Proof. unfold hermpoly_cols. rewrite length_map, length_seq. reflexivity. Qed.

Lemma hermpoly_cols_lookup (w : nat) (xk xz : vec) (pos idx : nat) :
  (idx < pos)%nat ->
  hermpoly_cols w xk xz pos !! idx
  = Some (zip_with Rmult (map (hermterm (idx / w)) xk) (map (hermterm (idx mod w)) xz)).
Proof.
  intros H. unfold hermpoly_cols. rewrite list_lookup_fmap.
  rewrite lookup_seq_lt by assumption. reflexivity.
Qed.

(** Position of the cell [(jk, jz)] in the flattened basis. *)
Lemma cell_position (jk jz w : Z) :
  (0 <= jk)%Z -> (0 <= jz < w)%Z ->
  Z.to_nat (jk * w + jz) = (Z.to_nat jk * Z.to_nat w + Z.to_nat jz)%nat.
Proof. intros Hk Hz. nia. Qed.

Lemma cell_div (a b w : nat) : (b < w)%nat -> ((a * w + b) / w)%nat = a.
Proof.
  intros H. rewrite Nat.div_add_l by lia. rewrite Nat.div_small by lia. lia.
Qed.

Lemma cell_mod (a b w : nat) : (b < w)%nat -> ((a * w + b) mod w)%nat = b.
Proof.
  intros H. rewrite Nat.add_comm, Nat.Div0.mod_add. apply Nat.mod_small. lia.
Qed.

Lemma hermpoly_cell_ok (pk pz jk jz : Z) (xk xz : vec) (n : nat) :
  (0 <= jk <= pk)%Z -> (0 <= jz <= pz)%Z ->
  length xk = n -> length xz = n ->
  let w := Z.to_nat (pz + 1) in
  let m := Z.to_nat ((pk + 1) * (pz + 1)) in
  let pos := Z.to_nat (jk * (pz + 1) + jz) in
  hermpoly_cell pz (Matrix n (hermterms_cols xk (Z.to_nat (pk + 1))))
                   (Matrix n (hermterms_cols xz (Z.to_nat (pz + 1)))) jk jz
    (Matrix n (hermpoly_cols w xk xz pos ++ replicate (m - pos) (replicate n 0)))
  = Ok (Matrix n (hermpoly_cols w xk xz (S pos)
                  ++ replicate (m - S pos) (replicate n 0))).
Proof.
  intros Hk Hz Hxk Hxz w m pos. unfold hermpoly_cell.
  assert (Hpos : pos = (Z.to_nat jk * w + Z.to_nat jz)%nat).
  { unfold pos, w. apply cell_position; lia. }
  assert (Hlt : (pos < m)%nat) by (unfold pos, m; nia).
  rewrite (get_col_ok _ jk (map (hermterm (Z.to_nat jk)) xk)); [|lia|]; cycle 1.
  { simpl. apply hermterms_cols_lookup. lia. }
  rewrite bind_Ok.
  rewrite (get_col_ok _ jz (map (hermterm (Z.to_nat jz)) xz)); [|lia|]; cycle 1.
  { simpl. apply hermterms_cols_lookup. lia. }
  rewrite bind_Ok, broadcast_same by (rewrite !length_map; lia).
  rewrite bind_Ok, set_col_ok; cycle 1.
  { simpl. rewrite length_app, hermpoly_cols_length, length_replicate. fold pos. nia. }
  { simpl. rewrite length_zip_with, !length_map. lia. }
  simpl nrows. simpl cols. fold pos. f_equal. f_equal.
  replace (m - pos)%nat with (S (m - S pos)) by lia.
  rewrite hermpoly_cols_S, <- app_assoc. simpl.
  rewrite insert_app_r_alt by (rewrite hermpoly_cols_length; lia).
  rewrite hermpoly_cols_length, Nat.sub_diag. simpl.
  assert (pos / w = Z.to_nat jk)%nat as ->
    by (rewrite Hpos; apply cell_div; unfold w; lia).
  assert (pos mod w = Z.to_nat jz)%nat as ->
    by (rewrite Hpos; apply cell_mod; unfold w; lia).
  reflexivity.
Qed.

(** For orders of at least one and a matrix of points whose first two
    columns are [xk] and [xz], [hermpoly] returns the flattened products. *)
Lemma hermpoly_ok (pk pz : Z) (x : matrix) (xk xz : vec) :
  (1 <= pk)%Z -> (1 <= pz)%Z ->
  cols x !! 0%nat = Some xk -> cols x !! 1%nat = Some xz ->
  length xk = nrows x -> length xz = nrows x ->
  hermpoly (pk, pz) x
  = Ok (Matrix (nrows x)
          (hermpoly_cols (Z.to_nat (pz + 1)) xk xz (Z.to_nat ((pk + 1) * (pz + 1))))).
Proof.
  intros Hpk Hpz H0 H1 Lk Lz. unfold hermpoly. simpl fst. simpl snd.
  rewrite (get_col_ok x 0 xk) by (try lia; exact H0). rewrite bind_Ok.
  rewrite hermterms_ok by lia. rewrite bind_Ok.
  rewrite (get_col_ok x 1 xz) by (try lia; exact H1). rewrite bind_Ok.
  rewrite hermterms_ok by lia. rewrite bind_Ok.
  unfold np_full.
  destruct (Z.ltb_spec ((pk + 1) * (pz + 1)) 0) as [?|_]; [nia|].
  rewrite bind_Ok. rewrite Lk, Lz.
  set (n := nrows x).
  set (hk := Matrix n (hermterms_cols xk (Z.to_nat (pk + 1)))).
  set (hz := Matrix n (hermterms_cols xz (Z.to_nat (pz + 1)))).
  set (w := Z.to_nat (pz + 1)).
  set (m := Z.to_nat ((pk + 1) * (pz + 1))).
  pose (filled := fun (pos : Z) =>
    Matrix n (hermpoly_cols w xk xz (Z.to_nat pos)
              ++ replicate (m - Z.to_nat pos) (replicate n 0))).
  destruct (for_in_range_inv
              (fun jk M => M = filled (jk * (pz + 1))%Z)
              (fun jk => for_in (py_range 0 (pz + 1)) (hermpoly_cell pz hk hz jk))
              0 (pk + 1) (Matrix n (replicate m (replicate n 0))))
    as (P & -> & ->); [lia | | |].
  - unfold filled. simpl. rewrite Nat.sub_0_r. reflexivity.
  - intros jk M Hjk ->.
    destruct (for_in_range_inv
                (fun jz M => M = filled (jk * (pz + 1) + jz)%Z)
                (hermpoly_cell pz hk hz jk) 0 (pz + 1) (filled (jk * (pz + 1))%Z))
      as (M' & -> & ->); [lia | f_equal; lia | |].
    + intros jz M Hjz ->. eexists. split.
      * unfold filled, hk, hz, w, m.
        apply hermpoly_cell_ok; [lia | lia | exact Lk | exact Lz].
      * unfold filled. f_equal. f_equal; [f_equal; nia | f_equal; nia].
    + eexists. split; [reflexivity|]. f_equal. lia.
  - unfold filled. f_equal. f_equal.
    replace (Z.to_nat ((pk + 1) * (pz + 1))) with m by reflexivity.
    rewrite Nat.sub_diag. simpl. apply app_nil_r.
Qed.

(** ** The exogenous process *)

Lemma for_in_ext {S} (l : list Z) (f g : Z -> S -> result S) (s : S) :
  (forall i s0, In i l -> f i s0 = g i s0) -> for_in l f s = for_in l g s.
Proof.
  revert s; induction l as [|i l IH]; intros s H; simpl; [reflexivity|].
  rewrite (H i s) by (left; reflexivity).
  destruct (g i s) as [s'|e]; simpl; [|reflexivity].
  apply IH. intros j s0 Hj. apply H. right; exact Hj.
Qed.

Lemma py_range_In (lo hi i : Z) : In i (py_range lo hi) -> (lo <= i < hi)%Z.
Proof.
  unfold py_range. intros H. apply list_elem_of_In, elem_of_seqZ in H. lia.
Qed.

Lemma np_zeros_ok (n : Z) :
  (0 <= n)%Z -> np_zeros n = Ok (replicate (Z.to_nat n) 0).
Proof.
  intros H. unfold np_zeros. destruct (Z.ltb_spec n 0); [lia | reflexivity].
Qed.

Lemma getitem_in_range (a : vec) (i : Z) :
  (0 <= i < Z.of_nat (length a))%Z ->
  exists v, a !! Z.to_nat i = Some v /\ getitem a i = Ok v.
Proof.
  intros Hi. destruct (lookup_lt_is_Some_2 a (Z.to_nat i)) as [v Hv]; [lia|].
  exists v. split; [exact Hv | apply getitem_ok; [lia | exact Hv]].
Qed.

Lemma shock_step_ok (p : params) (epsi : vec) (t : Z) (lnz : vec) :
  (1 <= t < T p)%Z ->
  Z.of_nat (length epsi) = T p -> Z.of_nat (length lnz) = T p ->
  exists lnz', shock_step p epsi t lnz = Ok lnz' /\ Z.of_nat (length lnz') = T p
               /\ lnz' !! 0%nat = lnz !! 0%nat.
Proof.
  intros Ht He Hl. unfold shock_step.
  destruct (getitem_in_range lnz (t - 1)) as (a & _ & ->); [lia|].
  destruct (getitem_in_range epsi t) as (b & _ & ->); [lia|].
  rewrite !bind_Ok, setitem_ok by lia.
  eexists. split; [reflexivity|]. rewrite length_insert. split; [exact Hl|].
  apply list_lookup_insert_ne. lia.
Qed.

(** The shock cell returns a path of length [T] that starts at zero. *)
Lemma simulate_shocks_ok (p : params) (draws : vec) :
  (1 <= T p)%Z -> Z.of_nat (length draws) = T p ->
  exists lnz, simulate_shocks p draws = Ok (lnz, map exp lnz)
              /\ Z.of_nat (length lnz) = T p /\ lnz !! 0%nat = Some 0.
Proof.
  intros HT Hd. unfold simulate_shocks.
  rewrite np_zeros_ok by lia. rewrite bind_Ok.
  rewrite setitem_ok by (rewrite length_replicate; lia). rewrite bind_Ok.
  destruct (for_in_range_inv
              (fun (_ : Z) (lnz : vec) =>
                 Z.of_nat (length lnz) = T p /\ lnz !! 0%nat = Some 0)
              (shock_step p (map (fun e => e * sigma p) draws)) 1 (T p)
              (<[Z.to_nat 0:=0]> (replicate (Z.to_nat (T p)) 0)))
    as (lnz & -> & Hlen & H0); [lia | | |].
  - rewrite length_insert, length_replicate. split; [lia|].
    apply list_lookup_insert_eq. rewrite length_replicate. lia.
  - intros t lnz Ht [Hlen H0].
    destruct (shock_step_ok p (map (fun e => e * sigma p) draws) t lnz)
      as (lnz' & -> & Hlen' & H0'); [lia | rewrite length_map; exact Hd | exact Hlen |].
    exists lnz'. rewrite H0'. auto.
  - exists lnz. auto.
Qed.

(** The shock cell reads the draws at the indices [1 .. T-1] only. *)
Lemma simulate_shocks_ext (p : params) (d1 d2 : vec) :
  Z.of_nat (length d1) = T p -> Z.of_nat (length d2) = T p ->
  (forall t : nat, (1 <= t)%nat -> d1 !! t = d2 !! t) ->
  simulate_shocks p d1 = simulate_shocks p d2.
Proof.
  intros H1 H2 Hagree. unfold simulate_shocks.
  destruct (np_zeros (T p)) as [lnz|e]; [|reflexivity]. rewrite !bind_Ok.
  destruct (setitem lnz 0 0) as [lnz0|e]; [|reflexivity]. rewrite !bind_Ok.
  rewrite (for_in_ext _ (shock_step p (map (fun e => e * sigma p) d1))
                        (shock_step p (map (fun e => e * sigma p) d2))).
  { reflexivity. }
  intros t l Ht. apply py_range_In in Ht. unfold shock_step.
  destruct (getitem l (t - 1)) as [a|e]; [|reflexivity]. rewrite !bind_Ok.
  assert (getitem (map (fun e => e * sigma p) d1) t
          = getitem (map (fun e => e * sigma p) d2) t) as ->; [|reflexivity].
  unfold getitem. rewrite !length_map.
  rewrite !py_index_ok by lia. rewrite !bind_Ok, !list_lookup_fmap.
  rewrite (Hagree (Z.to_nat t)) by lia. reflexivity.
Qed.

Lemma lookup_product (f g : R -> R) (xk xz : vec) (j : nat) (a b : R) :
  xk !! j = Some a -> xz !! j = Some b ->
  zip_with Rmult (map f xk) (map g xz) !! j = Some (f a * g b).
Proof.
  intros Ha Hb. rewrite lookup_zip_with, !list_lookup_fmap, Ha, Hb. reflexivity.
Qed.

Lemma row_hermpoly_cols (n w m : nat) (xk xz : vec) (j : nat) (a b : R) :
  xk !! j = Some a -> xz !! j = Some b ->
  row j (Matrix n (hermpoly_cols w xk xz m)) = basis_row w m a b.
Proof.
  intros Ha Hb. unfold row, hermpoly_cols, basis_row. simpl cols.
  rewrite map_map. apply map_ext. intros idx.
  rewrite (lookup_product _ _ _ _ _ a b) by assumption. reflexivity.
Qed.

(** The basis at a single point, as the time loop evaluates it. *)
Lemma hermpoly_point (p : params) (a b : R) :
  (1 <= porder_k p)%Z -> (1 <= porder_z p)%Z ->
  exists P, hermpoly (porder_k p, porder_z p) (Matrix 1 [[a]; [b]]) = Ok P
            /\ row 0 P = basis_row (Z.to_nat (porder_z p + 1))
                           (Z.to_nat ((porder_k p + 1) * (porder_z p + 1))) a b.
Proof.
  intros Hk Hz. eexists. split.
  - apply (hermpoly_ok _ _ _ [a] [b]); try reflexivity; assumption.
  - simpl nrows. apply row_hermpoly_cols; reflexivity.
Qed.

(** ** The time loop *)

Lemma basis_dot_ok (p : params) (a b : R) (coef : vec) :
  (1 <= porder_k p)%Z -> (1 <= porder_z p)%Z ->
  Z.of_nat (length coef) = ((porder_k p + 1) * (porder_z p + 1))%Z ->
  basis_dot p a b coef
  = Ok [vsum (zip_with Rmult
                (basis_row (Z.to_nat (porder_z p + 1))
                           (Z.to_nat ((porder_k p + 1) * (porder_z p + 1))) a b)
                coef)].
Proof.
  intros Hk Hz Hc. unfold basis_dot.
  destruct (hermpoly_point p a b Hk Hz) as (P & HP & Hrow).
  rewrite HP, bind_Ok. unfold np_dot.
  assert (HPc : length (cols P) = length coef).
  { rewrite (hermpoly_ok _ _ _ [a] [b]) in HP by (try reflexivity; assumption).
    injection HP as <-. simpl. rewrite hermpoly_cols_length. lia. }
  assert (HPr : nrows P = 1%nat).
  { rewrite (hermpoly_ok _ _ _ [a] [b]) in HP by (try reflexivity; assumption).
    injection HP as <-. reflexivity. }
  rewrite HPc, Nat.eqb_refl, HPr. simpl. rewrite Hrow. reflexivity.
Qed.

Lemma sim_step_ok (p : params) (lnz z : vec) (t : Z) (st : state) :
  shapes_ok p lnz z st -> (1 <= t < T p)%Z ->
  exists kp lz zt d,
    k st !! Z.to_nat (t - 1) = Some kp /\ lnz !! Z.to_nat (t - 1) = Some lz
    /\ z !! Z.to_nat t = Some zt
    /\ basis_dot p (ln kp) lz (psi st) = Ok [d]
    /\ sim_step p lnz z t st
       = Ok (State (<[Z.to_nat t:=exp (- d / nu p)]> (c st))
                   (<[Z.to_nat t:=zt * Rpower kp (alpha p) + (1 - delta p) * kp
                                  - exp (- d / nu p)]> (k st))
                   (<[Z.to_nat (t - 1):=ln kp]> (lnk st))
                   (psi st)).
Proof.
  intros [Hpk Hpz HT Hlnz Hz Hc Hk Hlnk Hpsi] Ht.
  destruct (getitem_in_range (k st) (t - 1)) as (kp & Hkp & Gk); [lia|].
  destruct (getitem_in_range lnz (t - 1)) as (lz & Hlz & Glz); [lia|].
  destruct (getitem_in_range z t) as (zt & Hzt & Gz); [lia|].
  pose proof (basis_dot_ok p (ln kp) lz (psi st) Hpk Hpz Hpsi) as Hd.
  match type of Hd with _ = Ok [?v] => set (d := v) in Hd end.
  exists kp, lz, zt, d. repeat (split; [assumption|]).
  unfold sim_step. rewrite Gk, bind_Ok.
  rewrite setitem_ok by lia. rewrite bind_Ok.
  rewrite (getitem_ok (<[Z.to_nat (t - 1):=ln kp]> (lnk st)) (t - 1) (ln kp)) by
    (try lia; apply list_lookup_insert_eq; lia).
  rewrite bind_Ok, Glz, bind_Ok.
  unfold basis_dot in Hd.
  destruct (hermpoly (porder_k p, porder_z p) (Matrix 1 [[ln kp]; [lz]]))
    as [P|e]; [|discriminate].
  rewrite bind_Ok in Hd. rewrite bind_Ok, Hd, bind_Ok. simpl map. unfold setitem_arr.
  rewrite setitem_ok by lia. rewrite bind_Ok, Gz, !bind_Ok.
  rewrite (getitem_ok (<[Z.to_nat t:=exp (- d / nu p)]> (c st)) t (exp (- d / nu p))) by
    (try lia; apply list_lookup_insert_eq; lia).
  rewrite bind_Ok, setitem_ok by lia. reflexivity.
Qed.

(** A step of the time loop leaves the relations of the earlier periods
    untouched. *)
Lemma trajectory_at_insert (p : params) (lnz z : vec) (st : state) (t t' : nat)
    (cv kv lv : R) :
  (S t' < t)%nat ->
  trajectory_at p lnz z st t' ->
  trajectory_at p lnz z
    (State (<[t:=cv]> (c st)) (<[t:=kv]> (k st)) (<[(t - 1)%nat:=lv]> (lnk st)) (psi st))
    t'.
Proof.
  intros Hlt (kp & lz & zt & d & Hk & Hl & Hlz & Hz & Hd & Hc & Hk').
  exists kp, lz, zt, d. simpl.
  rewrite !list_lookup_insert_ne by lia. auto 10.
Qed.

(** The simulation of one pass: it never raises under [shapes_ok], leaves
    the coefficients and [c[0]] alone, pins [k[0]] to the steady state and
    establishes [trajectory_at] between every two consecutive periods. *)
Lemma simulate_ok (p : params) (lnz z : vec) (st : state) :
  shapes_ok p lnz z st ->
  exists st', simulate p lnz z st = Ok st'
    /\ shapes_ok p lnz z st'
    /\ psi st' = psi st
    /\ c st' !! 0%nat = c st !! 0%nat
    /\ k st' !! 0%nat = Some (k_ss p)
    /\ forall t : nat, (Z.of_nat (S t) < T p)%Z -> trajectory_at p lnz z st' t.
Proof.
  intros Hs. pose proof Hs as [Hpk Hpz HT Hlnz Hz Hc Hk Hlnk Hpsi].
  unfold simulate.
  rewrite setitem_ok by lia. rewrite bind_Ok.
  rewrite (getitem_ok _ 0 (k_ss p)) by
    (try lia; apply list_lookup_insert_eq; lia).
  rewrite bind_Ok, setitem_ok by lia. rewrite bind_Ok.
  destruct (for_in_range_inv
              (fun t st1 =>
                 shapes_ok p lnz z st1 /\ psi st1 = psi st
                 /\ c st1 !! 0%nat = c st !! 0%nat
                 /\ k st1 !! 0%nat = Some (k_ss p)
                 /\ forall t' : nat, (Z.of_nat (S t') < t)%Z ->
                                     trajectory_at p lnz z st1 t')
              (sim_step p lnz z) 1 (T p)
              (State (c st) (<[Z.to_nat 0:=k_ss p]> (k st))
                     (<[Z.to_nat 0:=ln (k_ss p)]> (lnk st)) (psi st)))
    as (st' & -> & Hinv); [lia | | | exists st'; split; [reflexivity | exact Hinv]].
  - split; [|split; [reflexivity|split; [reflexivity|split]]].
    + constructor; simpl; rewrite ?length_insert; assumption.
    + simpl. apply list_lookup_insert_eq. lia.
    + intros t' Ht'. lia.
  - intros t st1 Ht (Hs1 & Hp1 & Hc1 & Hk1 & Htr).
    destruct (sim_step_ok p lnz z t st1 Hs1 Ht)
      as (kp & lz & zt & d & Hkp & Hlz & Hzt & Hd & ->).
    pose proof Hs1 as [_ _ _ _ _ Hc' Hk' Hlnk' Hpsi'].
    eexists. split; [reflexivity|].
    split; [|split; [exact Hp1|split; [|split]]].
    + constructor; simpl; rewrite ?length_insert; assumption.
    + simpl. rewrite list_lookup_insert_ne by lia. exact Hc1.
    + simpl. rewrite list_lookup_insert_ne by lia. exact Hk1.
    + intros t' Ht'.
      destruct (decide (Z.of_nat (S t') < t)%Z) as [Hlt|Hge].
      * replace (Z.to_nat (t - 1)) with (Z.to_nat t - 1)%nat by lia.
        apply trajectory_at_insert; [lia | apply Htr; exact Hlt].
      * assert (Z.to_nat t = S t') as Et by lia.
        assert (Z.to_nat (t - 1) = t') as Et' by lia.
        rewrite Et, Et' in *.
        exists kp, lz, zt, d. simpl.
        rewrite (list_lookup_insert_ne (k st1)) by lia.
        rewrite !list_lookup_insert_eq by lia. auto 10.
Qed.

(** ** Slices and the regression sample *)

Lemma slice_bound_ok (len : nat) (i : Z) :
  (0 <= i <= Z.of_nat len)%Z -> slice_bound len i = Z.to_nat i.
Proof.
  intros H. unfold slice_bound.
  destruct (Z.ltb_spec i 0); [lia|]. f_equal. lia.
Qed.

Lemma slice_ok (a : vec) (lo hi : Z) :
  (0 <= lo <= hi)%Z -> (hi <= Z.of_nat (length a))%Z ->
  slice a lo hi = take (Z.to_nat (hi - lo)) (drop (Z.to_nat lo) a).
Proof.
  intros H1 H2. unfold slice. rewrite !slice_bound_ok by lia.
  f_equal. lia.
Qed.

Lemma length_slice (a : vec) (lo hi : Z) :
  (0 <= lo <= hi)%Z -> (hi <= Z.of_nat (length a))%Z ->
  length (slice a lo hi) = Z.to_nat (hi - lo).
Proof.
  intros H1 H2. rewrite slice_ok by assumption.
  rewrite length_take, length_drop. lia.
Qed.

Lemma lookup_slice (a : vec) (lo hi : Z) (j : nat) :
  (0 <= lo <= hi)%Z -> (hi <= Z.of_nat (length a))%Z ->
  (j < Z.to_nat (hi - lo))%nat ->
  slice a lo hi !! j = a !! (Z.to_nat lo + j)%nat.
Proof.
  intros H1 H2 Hj. rewrite slice_ok by assumption.
  rewrite lookup_take_lt by assumption. apply lookup_drop.
Qed.

(** The regression sample of one pass: shapes and index alignment.  Row
    [j] of the sample belongs to the period [i = T1 - 1 + j]. *)
Lemma build_sample_ok (p : params) (lnz z : vec) (st : state) :
  shapes_ok p lnz z st -> (2 <= T1 p <= T p)%Z ->
  exists Y X, build_sample p lnz z st = Ok (Y, X)
    /\ length Y = Z.to_nat (T p - T1 p)
    /\ nrows X = Z.to_nat (T p - T1 p)
    /\ length (cols X) = Z.to_nat ((porder_k p + 1) * (porder_z p + 1))
    /\ forall j : nat, (j < Z.to_nat (T p - T1 p))%nat ->
         let i := (Z.to_nat (T1 p - 1) + j)%nat in
         exists cn zn ki lk lz,
           c st !! S i = Some cn /\ z !! S i = Some zn /\ k st !! i = Some ki
           /\ lnk st !! (i - 1)%nat = Some lk /\ lnz !! i = Some lz
           /\ Y !! j = Some (beta p * Rpower cn (- nu p)
                             * (alpha p * zn * Rpower ki (alpha p - 1) + 1 - delta p))
           /\ row j X = basis_row (Z.to_nat (porder_z p + 1))
                          (Z.to_nat ((porder_k p + 1) * (porder_z p + 1))) lk lz.
Proof.
  intros [Hpk Hpz HT Hlnz Hz Hc Hk Hlnk Hpsi] HT1. unfold build_sample.
  set (n := Z.to_nat (T p - T1 p)).
  assert (Lc : length (slice (c st) (T1 p) (T p)) = n)
    by (rewrite length_slice by lia; reflexivity).
  assert (Lz : length (slice z (T1 p) (T p)) = n)
    by (rewrite length_slice by lia; reflexivity).
  assert (Lk : length (slice (k st) (T1 p - 1) (T p - 1)) = n)
    by (rewrite length_slice by lia; unfold n; lia).
  assert (Ll : length (slice (lnk st) (T1 p - 2) (T p - 2)) = n)
    by (rewrite length_slice by lia; unfold n; lia).
  assert (Lz' : length (slice lnz (T1 p - 1) (T p - 1)) = n)
    by (rewrite length_slice by lia; unfold n; lia).
  rewrite broadcast_same by (rewrite !length_map; lia). rewrite bind_Ok.
  rewrite broadcast_same by (rewrite !length_map, length_zip_with, !length_map; lia).
  rewrite bind_Ok. unfold columns2. rewrite Ll, Lz', Nat.eqb_refl, bind_Ok.
  rewrite (hermpoly_ok _ _ _ (slice (lnk st) (T1 p - 2) (T p - 2))
                             (slice lnz (T1 p - 1) (T p - 1)))
    by (try reflexivity; assumption).
  rewrite bind_Ok. eexists _, _. split; [reflexivity|].
  split; [rewrite length_zip_with, !length_map, length_zip_with, !length_map; lia|].
  split; [reflexivity|]. split; [simpl; apply hermpoly_cols_length|].
  intros j Hj. set (i := (Z.to_nat (T1 p - 1) + j)%nat).
  destruct (lookup_lt_is_Some_2 (c st) (S i)) as [cn Hcn]; [unfold i, n in *; lia|].
  destruct (lookup_lt_is_Some_2 z (S i)) as [zn Hzn]; [unfold i, n in *; lia|].
  destruct (lookup_lt_is_Some_2 (k st) i) as [ki Hki]; [unfold i, n in *; lia|].
  destruct (lookup_lt_is_Some_2 (lnk st) (i - 1)) as [lk Hlk]; [unfold i, n in *; lia|].
  destruct (lookup_lt_is_Some_2 lnz i) as [lz Hlz]; [unfold i, n in *; lia|].
  exists cn, zn, ki, lk, lz. repeat (split; [assumption|]).
  assert (Sc : slice (c st) (T1 p) (T p) !! j = Some cn).
  { rewrite lookup_slice by (unfold n in *; lia).
    replace (Z.to_nat (T1 p) + j)%nat with (S i) by (unfold i; lia). exact Hcn. }
  assert (Sz : slice z (T1 p) (T p) !! j = Some zn).
  { rewrite lookup_slice by (unfold n in *; lia).
    replace (Z.to_nat (T1 p) + j)%nat with (S i) by (unfold i; lia). exact Hzn. }
  assert (Sk : slice (k st) (T1 p - 1) (T p - 1) !! j = Some ki).
  { rewrite lookup_slice by (unfold n in *; lia). exact Hki. }
  assert (Sl : slice (lnk st) (T1 p - 2) (T p - 2) !! j = Some lk).
  { rewrite lookup_slice by (unfold n in *; lia).
    replace (Z.to_nat (T1 p - 2) + j)%nat with (i - 1)%nat by (unfold i; lia).
    exact Hlk. }
  assert (Sz' : slice lnz (T1 p - 1) (T p - 1) !! j = Some lz).
  { rewrite lookup_slice by (unfold n in *; lia). exact Hlz. }
  split.
  - rewrite lookup_zip_with, !list_lookup_fmap, lookup_zip_with, !list_lookup_fmap.
    rewrite Sc, Sz, Sk. reflexivity.
  - apply row_hermpoly_cols; assumption.
Qed.

(** ** The residual sum of squares *)

Lemma list_as_map (Y : vec) :
  Y = map (fun i => default 0 (Y !! i)) (seq 0 (length Y)).
Proof.
  apply list_eq. intros i. rewrite list_lookup_fmap.
  destruct (decide (i < length Y)%nat) as [Hlt|Hge].
  - rewrite lookup_seq_lt by assumption. simpl.
    destruct (lookup_lt_is_Some_2 Y i Hlt) as [v ->]. reflexivity.
  - rewrite lookup_seq_ge by lia. simpl. apply lookup_ge_None. lia.
Qed.

(** C8. For a target [Y] with as many entries as [X] has rows and
    coefficients with as many entries as [X] has columns, [rss] returns the
    sum over the rows of [(Y - exp(X.coef))^2]. *)
Theorem rss_is_sum_of_squares (coef Y : vec) (X : matrix) :
  length Y = nrows X -> length (cols X) = length coef ->
  rss coef Y X = Ok (rss_spec coef Y X).
Proof.
  intros HY HX. unfold rss, np_dot. rewrite HX, Nat.eqb_refl, !bind_Ok.
  rewrite broadcast_same by (rewrite !length_map, length_seq; exact HY).
  rewrite !bind_Ok.
  rewrite broadcast_same by (rewrite !length_map, length_seq; exact HY).
  rewrite bind_Ok. unfold inner. rewrite Nat.eqb_refl. f_equal.
  unfold rss_spec. f_equal.
  rewrite (list_as_map Y) at 1 2. rewrite HY, map_map.
  rewrite (zip_with_map_map Rminus). rewrite (zip_with_map_map Rmult).
  apply map_ext. intros i. simpl. ring.
Qed.

(** ** The passes of the main loop *)

Section MainLoopFacts.

Variable minimize : (vec -> result R) -> vec -> result vec.

(** The minimizer returns a point of the dimension of its starting
    point. *)
Hypothesis minimize_shape :
  forall f x0, exists x, minimize f x0 = Ok x /\ length x = length x0.

Lemma candidate_ok (p : params) (lnz z : vec) (st : state) :
  shapes_ok p lnz z st -> (2 <= T1 p <= T p)%Z ->
  exists st' Y X psi_out,
    simulate p lnz z st = Ok st'
    /\ build_sample p lnz z st' = Ok (Y, X)
    /\ minimize (fun coef => rss coef Y X) (psi st) = Ok psi_out
    /\ candidate minimize p lnz z st = Ok (st', psi_out)
    /\ shapes_ok p lnz z st' /\ psi st' = psi st
    /\ c st' !! 0%nat = c st !! 0%nat
    /\ length psi_out = length (psi st).
Proof.
  intros Hs HT1.
  destruct (simulate_ok p lnz z st Hs) as (st' & Hsim & Hs' & Hpsi & Hc0 & _).
  destruct (build_sample_ok p lnz z st' Hs' HT1) as (Y & X & Hb & _).
  destruct (minimize_shape (fun coef => rss coef Y X) (psi st))
    as (psi_out & Hm & Hlen).
  exists st', Y, X, psi_out. unfold candidate.
  rewrite Hsim, bind_Ok, Hb, bind_Ok, Hpsi, Hm, bind_Ok. auto 10.
Qed.

(** One pass: either [break] with the coefficients untouched, or the
    damped update. *)
Lemma pass_ok (p : params) (lnz z : vec) (st : state) :
  shapes_ok p lnz z st -> (2 <= T1 p <= T p)%Z ->
  exists st' Y X psi_out,
    simulate p lnz z st = Ok st'
    /\ build_sample p lnz z st' = Ok (Y, X)
    /\ minimize (fun coef => rss coef Y X) (psi st) = Ok psi_out
    /\ candidate minimize p lnz z st = Ok (st', psi_out)
    /\ shapes_ok p lnz z st' /\ psi st' = psi st
    /\ c st' !! 0%nat = c st !! 0%nat
    /\ length psi_out = length (psi st)
    /\ (norm (zip_with Rminus (psi st) psi_out) < psitol p ->
        pass minimize p lnz z st = Ok (st', true))
    /\ (~ norm (zip_with Rminus (psi st) psi_out) < psitol p ->
        pass minimize p lnz z st
        = Ok (State (c st') (k st') (lnk st')
                    (zip_with Rplus (map (Rmult (lrate p)) psi_out)
                                    (map (Rmult (1 - lrate p)) (psi st))),
              false)).
Proof.
  intros Hs HT1.
  destruct (candidate_ok p lnz z st Hs HT1)
    as (st' & Y & X & psi_out & Hsim & Hb & Hm & Hcand & Hs' & Hpsi & Hc0 & Hlen).
  exists st', Y, X, psi_out. repeat (split; [assumption|]).
  unfold pass. rewrite Hcand, bind_Ok. simpl. rewrite Hpsi.
  rewrite (broadcast_same Rminus) by (symmetry; exact Hlen). rewrite bind_Ok.
  rewrite (broadcast_same Rplus) by (rewrite !length_map; exact Hlen).
  rewrite bind_Ok.
  destruct (Rlt_dec (norm (zip_with Rminus (psi st) psi_out)) (psitol p));
    split; intros H; (reflexivity || contradiction).
Qed.

Lemma shapes_ok_psi (p : params) (lnz z : vec) (st : state) (new : vec) :
  shapes_ok p lnz z st -> length new = length (psi st) ->
  shapes_ok p lnz z (State (c st) (k st) (lnk st) new).
Proof.
  intros [? ? ? ? ? ? ? ? Hpsi] Hn. constructor; simpl; try assumption.
  rewrite Hn. exact Hpsi.
Qed.

(** The loop never raises under [shapes_ok], whatever the number of
    passes, and no pass writes [c[0]]. *)
Lemma main_loop_ok (n : nat) (p : params) (lnz z : vec) (st : state) :
  shapes_ok p lnz z st -> (2 <= T1 p <= T p)%Z ->
  exists st' broke,
    main_loop minimize n p lnz z st = Ok (st', broke)
    /\ shapes_ok p lnz z st' /\ c st' !! 0%nat = c st !! 0%nat.
Proof.
  intros Hs HT1. revert st Hs.
  induction n as [|n IH]; intros st Hs; simpl.
  - exists st, false. auto.
  - destruct (pass_ok p lnz z st Hs HT1)
      as (st' & Y & X & psi_out & _ & _ & _ & _ & Hs' & Hpsi & Hc0 & Hlen
          & Hbrk & Hupd).
    destruct (Rlt_dec (norm (zip_with Rminus (psi st) psi_out)) (psitol p))
      as [Hlt|Hge].
    + rewrite (Hbrk Hlt), bind_Ok. exists st', true. auto.
    + rewrite (Hupd Hge), bind_Ok.
      destruct (IH (State (c st') (k st') (lnk st')
                          (zip_with Rplus (map (Rmult (lrate p)) psi_out)
                                          (map (Rmult (1 - lrate p)) (psi st)))))
        as (st2 & b & -> & Hs2 & Hc2).
      { apply shapes_ok_psi; [exact Hs'|].
        rewrite length_zip_with, !length_map, Hpsi. lia. }
      exists st2, b. split; [reflexivity|]. split; [exact Hs2|].
      rewrite Hc2. exact Hc0.
Qed.

Lemma init_state_ok (p : params) (lnz z psi0 : vec) :
  (1 <= porder_k p)%Z -> (1 <= porder_z p)%Z -> (1 <= T p)%Z ->
  Z.of_nat (length lnz) = T p -> Z.of_nat (length z) = T p ->
  Z.of_nat (length psi0) = ((porder_k p + 1) * (porder_z p + 1))%Z ->
  exists st, init_state p psi0 = Ok st /\ shapes_ok p lnz z st
             /\ c st !! 0%nat = Some 0.
Proof.
  intros Hk Hz HT Hl Hzl Hp. unfold init_state.
  rewrite np_zeros_ok by lia. rewrite !bind_Ok.
  eexists. split; [reflexivity|]. split.
  - constructor; simpl; rewrite ?length_replicate; try assumption; lia.
  - simpl. apply lookup_replicate_2. lia.
Qed.

(** The whole notebook returns under these shapes, with [c[0]] at zero. *)
Lemma run_ok (p : params) (draws psi0 : vec) :
  (1 <= porder_k p)%Z -> (1 <= porder_z p)%Z -> (2 <= T1 p <= T p)%Z ->
  Z.of_nat (length draws) = T p ->
  Z.of_nat (length psi0) = ((porder_k p + 1) * (porder_z p + 1))%Z ->
  exists final broke,
    run minimize p draws psi0 = Ok (final, broke) /\ c final !! 0%nat = Some 0.
Proof.
  intros Hk Hz HT1 Hd Hp. unfold run.
  destruct (simulate_shocks_ok p draws ltac:(lia) Hd) as (lnz & -> & Hl & _).
  rewrite bind_Ok. cbv beta iota.
  destruct (init_state_ok p lnz (map exp lnz) psi0) as (st0 & -> & Hs & Hc0);
    try assumption; try lia.
  { rewrite length_map. exact Hl. }
  rewrite bind_Ok.
  destruct (main_loop_ok (Z.to_nat (maxiter p)) p lnz (map exp lnz) st0 Hs HT1)
    as (st & broke & -> & _ & Hc).
  exists st, broke. split; [reflexivity|]. rewrite Hc. exact Hc0.
Qed.

End MainLoopFacts.

(** ** The claims about the Hermite basis *)

Lemma hermterm_He_low (j : nat) (x : R) : (j <= 1)%nat -> hermterm j x = He j x.
Proof. intros H. destruct j as [|[|j]]; [reflexivity | reflexivity | lia]. Qed.

(** From the third term on the two recurrences part: the code subtracts
    [j * h_{j-2}] where the probabilists' recurrence subtracts
    [(j-1) * H_{j-2}]. *)
Lemma hermterm_2 (x : R) : hermterm 2 x = x * x - 2 /\ He 2 x = x * x - 1.
Proof.
  split.
  - rewrite hermterm_SS, hermterm_1, hermterm_0. simpl. ring.
  - rewrite He_SS. unfold He. simpl. ring.
Qed.

(** The values of the specification's recurrence at zero are 1, 0, -1, 0, 3. *)
Lemma He_at_zero : map (fun j => He j 0) (seq 0 5) = [1; 0; -1; 0; 3].
Proof. unfold He. simpl. repeat f_equal; ring. Qed.

(** C1. [hermterms] does not return the probabilists' Hermite values of the
    recurrence [H_{j+1} = x*H_j - j*H_{j-1}]: at order 2 and [x = 0] its
    row is [1; 0; -2], where the recurrence gives [1; 0; -1]. *)
Theorem hermterms_order2_at_zero :
  exists hx, hermterms 2 [0] = Ok hx
             /\ row 0 hx = [1; 0; -2]
             /\ basisRow_spec 2 0 = [1; 0; -1]
             /\ row 0 hx <> basisRow_spec 2 0.
Proof.
  assert (H1 : hermterms 2 [0] = Ok (Matrix 1 [[1]; [0]; [0 * 0 - 2 * 1]])).
  { rewrite hermterms_ok by lia. reflexivity. }
  assert (H2 : basisRow_spec 2 0 = [1; 0; 0 * 0 - 1 * 1]) by reflexivity.
  eexists. split; [exact H1|]. rewrite H2.
  split; [|split]; unfold row; simpl.
  - repeat f_equal; lra.
  - repeat f_equal; lra.
  - intros E. injection E. lra.
Qed.

(** C2. [hermterms] raises on order 0, whatever the points: the assignment
    [hx[:,1] = x] addresses a column the one-column array does not have. *)
Theorem hermterms_order0_raises (x : vec) : hermterms 0 x = Raise IndexError.
Proof. apply hermterms_order0. Qed.

(** On every order of at least one [hermterms] returns, with one row per
    point and [porder + 1] columns. *)
Lemma hermterms_total (porder : Z) (x : vec) :
  (1 <= porder)%Z ->
  exists hx, hermterms porder x = Ok hx /\ nrows hx = length x
             /\ Z.of_nat (length (cols hx)) = (porder + 1)%Z.
Proof.
  intros H. eexists. split; [apply hermterms_ok; exact H|].
  split; [reflexivity|]. simpl. rewrite hermterms_cols_length. lia.
Qed.

(** The row [hermterms] returns for the point of index [i]. *)
Lemma hermterms_row (porder : Z) (x : vec) (i : nat) (a : R) :
  (1 <= porder)%Z -> x !! i = Some a ->
  exists hx, hermterms porder x = Ok hx
             /\ row i hx = map (fun j => hermterm j a) (seq 0 (Z.to_nat (porder + 1))).
Proof.
  intros Hp Ha. eexists. split; [apply hermterms_ok; exact Hp|].
  unfold row, hermterms_cols. simpl cols. rewrite map_map.
  apply map_ext. intros j. rewrite list_lookup_fmap, Ha. reflexivity.
Qed.

(** Order 1 is the one order on which [hermterms] agrees with the
    specification's [basisRow]. *)
Lemma hermterms_order1_row (x : vec) (i : nat) (a : R) :
  x !! i = Some a ->
  exists hx, hermterms 1 x = Ok hx /\ row i hx = basisRow_spec 1 a.
Proof.
  intros Ha. destruct (hermterms_row 1 x i a ltac:(lia) Ha) as (hx & H & Hr).
  exists hx. split; [exact H|]. rewrite Hr. reflexivity.
Qed.

(** On every order of at least two and at every point the third entry of
    the row is [a*a - 2], one below the specification's [H_2(a)]. *)
Lemma hermterms_third_entry (porder : Z) (x : vec) (i : nat) (a : R) :
  (2 <= porder)%Z -> x !! i = Some a ->
  exists hx, hermterms porder x = Ok hx
             /\ row i hx !! 2%nat = Some (a * a - 2)
             /\ basisRow_spec (Z.to_nat porder) a !! 2%nat = Some (a * a - 1).
Proof.
  intros Hp Ha. destruct (hermterms_row porder x i a ltac:(lia) Ha) as (hx & H & Hr).
  exists hx. split; [exact H|]. rewrite Hr. unfold basisRow_spec.
  rewrite !list_lookup_fmap, !lookup_seq_lt by lia. simpl.
  destruct (hermterm_2 a) as [-> ->]. split; reflexivity.
Qed.

Lemma get_col_raises (M : matrix) (j : Z) (e : exn) :
  get_col M j = Raise e -> e = IndexError.
Proof.
  unfold get_col, py_index.
  destruct ((0 <=? j)%Z && (j <? Z.of_nat (length (cols M)))%Z); simpl.
  - destruct (cols M !! Z.to_nat j); [discriminate | congruence].
  - destruct ((- Z.of_nat (length (cols M)) <=? j)%Z && (j <? 0)%Z); simpl.
    + destruct (cols M !! Z.to_nat (j + Z.of_nat (length (cols M))));
        [discriminate | congruence].
    + congruence.
Qed.

(** C7. [hermpoly] raises when the order in k is 0, whatever the order in z
    and the points: no column is returned. *)
Theorem hermpoly_order0_raises (porder_z : Z) (x : matrix) :
  hermpoly (0%Z, porder_z) x = Raise IndexError.
Proof.
  unfold hermpoly. simpl fst.
  destruct (get_col x 0) as [x0|e] eqn:E.
  - rewrite bind_Ok, hermterms_order0. reflexivity.
  - apply get_col_raises in E. subst e. reflexivity.
Qed.

(** X4. For orders of at least one the layout is the claimed one: [hermpoly]
    returns [(ok+1)*(oz+1)] columns and the entry of row [i] at position
    [jk*(oz+1)+jz] is the product of the entries [jk] and [jz] of the rows
    [hermterms] returns for the two coordinates. *)
Lemma hermpoly_layout (pk pz : Z) (x : matrix) (xk xz : vec) :
  (1 <= pk)%Z -> (1 <= pz)%Z ->
  cols x !! 0%nat = Some xk -> cols x !! 1%nat = Some xz ->
  length xk = nrows x -> length xz = nrows x ->
  exists hk hz P,
    hermterms pk xk = Ok hk /\ hermterms pz xz = Ok hz
    /\ hermpoly (pk, pz) x = Ok P
    /\ nrows P = nrows x
    /\ Z.of_nat (length (cols P)) = ((pk + 1) * (pz + 1))%Z
    /\ forall (i : nat) (jk jz : Z),
         (i < nrows x)%nat -> (0 <= jk <= pk)%Z -> (0 <= jz <= pz)%Z ->
         exists a b, row i hk !! Z.to_nat jk = Some a
                     /\ row i hz !! Z.to_nat jz = Some b
                     /\ row i P !! Z.to_nat (jk * (pz + 1) + jz) = Some (a * b).
Proof.
  intros Hpk Hpz H0 H1 Lk Lz.
  eexists _, _, _. split; [apply hermterms_ok; exact Hpk|].
  split; [apply hermterms_ok; exact Hpz|].
  split; [apply (hermpoly_ok pk pz x xk xz); assumption|].
  split; [reflexivity|].
  split; [simpl; rewrite hermpoly_cols_length; nia|].
  intros i jk jz Hi Hjk Hjz.
  destruct (lookup_lt_is_Some_2 xk i) as [a Ha]; [lia|].
  destruct (lookup_lt_is_Some_2 xz i) as [b Hb]; [lia|].
  exists (hermterm (Z.to_nat jk) a), (hermterm (Z.to_nat jz) b).
  unfold row. simpl cols. rewrite !list_lookup_fmap.
  rewrite !hermterms_cols_lookup by lia.
  rewrite hermpoly_cols_lookup by nia. simpl.
  rewrite !list_lookup_fmap, Ha, Hb. simpl.
  split; [reflexivity|]. split; [reflexivity|].
  rewrite (lookup_product _ _ _ _ _ a b) by assumption. simpl.
  rewrite cell_position by lia.
  rewrite cell_div, cell_mod by lia. reflexivity.
Qed.

(** ** The claim about the shock path *)

(** C10. Two draw sequences of length [T] that agree at the indices
    [1 .. T-1] give the same log-productivity and productivity paths. *)
Theorem shocks_ignore_first_draw (p : params) (d1 d2 : vec) :
  (1 <= T p)%Z ->
  Z.of_nat (length d1) = T p -> Z.of_nat (length d2) = T p ->
  (forall t : nat, (1 <= t)%nat -> (Z.of_nat t < T p)%Z -> d1 !! t = d2 !! t) ->
  exists lnz, simulate_shocks p d1 = Ok (lnz, map exp lnz)
              /\ simulate_shocks p d2 = Ok (lnz, map exp lnz).
Proof.
  intros HT H1 H2 Hagree.
  destruct (simulate_shocks_ok p d1 HT H1) as (lnz & Hl & _).
  exists lnz. split; [exact Hl|].
  rewrite <- Hl. symmetry. apply simulate_shocks_ext; try assumption.
  intros t Ht. destruct (decide (Z.of_nat t < T p)%Z) as [Hlt|Hge].
  - apply Hagree; assumption.
  - rewrite !lookup_ge_None_2 by lia. reflexivity.
Qed.

(** ** The claims about the simulation and the sample *)

(** C6. Under [shapes_ok] the simulation returns a trajectory whose first
    capital is the closed-form steady state and in which, for every period
    [t+1 < T], [lnk[t] = log(k[t])],
    [c[t+1] = exp(-(basis(lnk[t], lnz[t]).psi)/nu)] and
    [k[t+1] = z[t+1]*k[t]^alpha + (1-delta)*k[t] - c[t+1]]. *)
Theorem trajectory_recursion (p : params) (lnz z : vec) (st : state) :
  shapes_ok p lnz z st ->
  exists st', simulate p lnz z st = Ok st'
    /\ k st' !! 0%nat
       = Some (Rpower ((1 - beta p + delta p * beta p) / (alpha p * beta p))
                      (1 / (alpha p - 1)))
    /\ forall t : nat, (Z.of_nat (S t) < T p)%Z ->
         exists kp lz zt d,
           k st' !! t = Some kp /\ lnk st' !! t = Some (ln kp)
           /\ lnz !! t = Some lz /\ z !! S t = Some zt
           /\ basis_dot p (ln kp) lz (psi st) = Ok [d]
           /\ c st' !! S t = Some (exp (- d / nu p))
           /\ k st' !! S t
              = Some (zt * Rpower kp (alpha p) + (1 - delta p) * kp
                      - exp (- d / nu p)).
Proof.
  intros Hs.
  destruct (simulate_ok p lnz z st Hs) as (st' & Hsim & _ & Hpsi & _ & Hk0 & Htr).
  exists st'. split; [exact Hsim|]. split; [exact Hk0|].
  intros t Ht. specialize (Htr t Ht). unfold trajectory_at in Htr.
  rewrite Hpsi in Htr. exact Htr.
Qed.

(** C5. Under [shapes_ok] and [2 <= T1 <= T] the sample has [T - T1] rows;
    row [j] belongs to the period [i = T1 - 1 + j]: its target is
    [beta * c[i+1]^(-nu) * (alpha*z[i+1]*k[i]^(alpha-1) + 1 - delta)] and
    its regressors are the basis at [(lnk[i-1], lnz[i])]. *)
Theorem sample_alignment (p : params) (lnz z : vec) (st : state) :
  shapes_ok p lnz z st -> (2 <= T1 p <= T p)%Z ->
  exists Y X, build_sample p lnz z st = Ok (Y, X)
    /\ Z.of_nat (length Y) = (T p - T1 p)%Z
    /\ Z.of_nat (nrows X) = (T p - T1 p)%Z
    /\ forall j : nat, (Z.of_nat j < T p - T1 p)%Z ->
         let i := (Z.to_nat (T1 p - 1) + j)%nat in
         exists cn zn ki lk lz P,
           c st !! S i = Some cn /\ z !! S i = Some zn /\ k st !! i = Some ki
           /\ lnk st !! (i - 1)%nat = Some lk /\ lnz !! i = Some lz
           /\ Y !! j = Some (beta p * Rpower cn (- nu p)
                             * (alpha p * zn * Rpower ki (alpha p - 1) + 1 - delta p))
           /\ hermpoly (porder_k p, porder_z p) (Matrix 1 [[lk]; [lz]]) = Ok P
           /\ row j X = row 0 P.
Proof.
  intros Hs HT1.
  destruct (build_sample_ok p lnz z st Hs HT1) as (Y & X & Hb & HY & HX & _ & Hrows).
  exists Y, X. split; [exact Hb|]. split; [lia|]. split; [lia|].
  intros j Hj i.
  destruct (Hrows j ltac:(lia))
    as (cn & zn & ki & lk & lz & Hc & Hz & Hk & Hl & Hlz & HYj & Hrow).
  destruct (hermpoly_point p lk lz (shape_pk _ _ _ _ Hs) (shape_pz _ _ _ _ Hs))
    as (P & HP & HP0).
  exists cn, zn, ki, lk, lz, P. repeat (split; [assumption|]).
  rewrite HP0. exact Hrow.
Qed.

(** ** The claims about the main loop *)

(** C9. Whatever the number of passes, the coefficients and the draws, the
    main loop returns with [c[0]] still at its initial zero. *)
Theorem consumption_0_stays_zero
    (minimize : (vec -> result R) -> vec -> result vec)
    (p : params) (draws psi0 : vec) (n : nat) :
  (forall f x0, exists x, minimize f x0 = Ok x /\ length x = length x0) ->
  (1 <= porder_k p)%Z -> (1 <= porder_z p)%Z -> (2 <= T1 p <= T p)%Z ->
  Z.of_nat (length draws) = T p ->
  Z.of_nat (length psi0) = ((porder_k p + 1) * (porder_z p + 1))%Z ->
  exists lnz z st0 st broke,
    simulate_shocks p draws = Ok (lnz, z)
    /\ init_state p psi0 = Ok st0
    /\ main_loop minimize n p lnz z st0 = Ok (st, broke)
    /\ c st !! 0%nat = Some 0.
Proof.
  intros Hmin Hk Hz HT1 Hd Hp.
  destruct (simulate_shocks_ok p draws ltac:(lia) Hd) as (lnz & Hsh & Hl & _).
  destruct (init_state_ok p lnz (map exp lnz) psi0) as (st0 & Hi & Hs & Hc0);
    try assumption; try lia.
  { rewrite length_map. exact Hl. }
  destruct (main_loop_ok minimize Hmin n p lnz (map exp lnz) st0 Hs HT1)
    as (st & broke & Hloop & _ & Hc).
  exists lnz, (map exp lnz), st0, st, broke.
  repeat (split; [assumption|]). rewrite Hc. exact Hc0.
Qed.

(** C3 (amended). In a pass, with [psi_out] the fitted candidate and
    [delta] the Euclidean norm of [psi - psi_out]: if [delta < psitol] the
    loop stops at once and keeps [psi] as it was; otherwise it goes on with
    [psi = lrate*psi_out + (1-lrate)*psi]; with no pass left it returns the
    state it has. *)
Theorem pass_breaks_or_damps
    (minimize : (vec -> result R) -> vec -> result vec)
    (p : params) (lnz z : vec) (st : state) (n : nat) :
  (forall f x0, exists x, minimize f x0 = Ok x /\ length x = length x0) ->
  shapes_ok p lnz z st -> (2 <= T1 p <= T p)%Z ->
  exists st' psi_out,
    candidate minimize p lnz z st = Ok (st', psi_out)
    /\ psi st' = psi st
    /\ (norm (zip_with Rminus (psi st) psi_out) < psitol p ->
        main_loop minimize (S n) p lnz z st = Ok (st', true))
    /\ (~ norm (zip_with Rminus (psi st) psi_out) < psitol p ->
        main_loop minimize (S n) p lnz z st
        = main_loop minimize n p lnz z
            (State (c st') (k st') (lnk st')
                   (zip_with Rplus (map (Rmult (lrate p)) psi_out)
                                   (map (Rmult (1 - lrate p)) (psi st)))))
    /\ main_loop minimize 0 p lnz z st = Ok (st, false).
Proof.
  intros Hmin Hs HT1.
  destruct (pass_ok minimize Hmin p lnz z st Hs HT1)
    as (st' & Y & X & psi_out & _ & _ & _ & Hcand & _ & Hpsi & _ & _ & Hbrk & Hupd).
  exists st', psi_out. split; [exact Hcand|]. split; [exact Hpsi|].
  split; [|split; [|reflexivity]].
  - intros Hlt. simpl. rewrite (Hbrk Hlt). reflexivity.
  - intros Hge. simpl. rewrite (Hupd Hge). reflexivity.
Qed.


(** ** The claims at concrete inputs *)

Lemma minimize_keep_shape (f : vec -> result R) (x0 : vec) :
  exists x, minimize_keep f x0 = Ok x /\ length x = length x0.
Proof. exists x0. split; reflexivity. Qed.

Lemma minimize_bump_shape (f : vec -> result R) (x0 : vec) :
  exists x, minimize_bump f x0 = Ok x /\ length x = length x0.
Proof. eexists. split; [reflexivity|]. destruct x0; reflexivity. Qed.

Lemma demo_shapes (psi0 : vec) :
  length psi0 = 4%nat ->
  shapes_ok (demo_params 3) (demo_lnz 3) (demo_z 3) (demo_state 3 psi0).
Proof. intros H. constructor; cbn; rewrite ?H; lia. Qed.

Lemma k_ss_demo (n : Z) : k_ss (demo_params n) = 1.
Proof.
  unfold k_ss. cbn.
  replace ((1 - 4 / 5 + 1 / 4 * (4 / 5)) / (1 / 2 * (4 / 5))) with 1 by field.
  unfold Rpower. rewrite ln_1, Rmult_0_r. apply exp_0.
Qed.


Lemma rss_is_sum_of_squares_witness :
  length [1; 2] = nrows (Matrix 2 [[0; 0]])
  /\ length (cols (Matrix 2 [[0; 0]])) = length [0]
  /\ rss [0] [1; 2] (Matrix 2 [[0; 0]])
     = Ok (rss_spec [0] [1; 2] (Matrix 2 [[0; 0]])).
Proof.
  split; [reflexivity|]. split; [reflexivity|].
  apply rss_is_sum_of_squares; reflexivity.
Defined.

Lemma shocks_ignore_first_draw_witness :
  exists lnz, simulate_shocks (demo_params 2) [0; 1] = Ok (lnz, map exp lnz)
              /\ simulate_shocks (demo_params 2) [5; 1] = Ok (lnz, map exp lnz).
Proof.
  apply shocks_ignore_first_draw.
  - cbn. lia.
  - reflexivity.
  - reflexivity.
  - intros [|[|t]] H1 H2; [lia | reflexivity | cbn in H2; lia].
Defined.

Lemma trajectory_recursion_witness :
  exists st', simulate (demo_params 3) (demo_lnz 3) (demo_z 3)
                (demo_state 3 [0; 0; 0; 0]) = Ok st'
              /\ k st' !! 0%nat = Some (k_ss (demo_params 3)).
Proof.
  destruct (trajectory_recursion (demo_params 3) (demo_lnz 3) (demo_z 3)
              (demo_state 3 [0; 0; 0; 0]) (demo_shapes [0; 0; 0; 0] eq_refl))
    as (st' & H1 & H2 & _).
  exists st'. split; [exact H1 | exact H2].
Defined.

Lemma sample_alignment_witness :
  exists Y X, build_sample (demo_params 3) (demo_lnz 3) (demo_z 3)
                (demo_state 3 [0; 0; 0; 0]) = Ok (Y, X)
              /\ Z.of_nat (length Y) = 1%Z /\ Z.of_nat (nrows X) = 1%Z.
Proof.
  destruct (sample_alignment (demo_params 3) (demo_lnz 3) (demo_z 3)
              (demo_state 3 [0; 0; 0; 0]) (demo_shapes [0; 0; 0; 0] eq_refl))
    as (Y & X & H1 & H2 & H3 & _).
  - cbn. lia.
  - exists Y, X. split; [exact H1|]. split; [exact H2 | exact H3].
Defined.

Lemma consumption_0_stays_zero_witness :
  exists lnz z st0 st broke,
    simulate_shocks (demo_params 3) [0; 0; 0] = Ok (lnz, z)
    /\ init_state (demo_params 3) [0; 0; 0; 0] = Ok st0
    /\ main_loop minimize_keep 1 (demo_params 3) lnz z st0 = Ok (st, broke)
    /\ c st !! 0%nat = Some 0.
Proof.
  apply consumption_0_stays_zero.
  - exact minimize_keep_shape.
  - cbn. lia.
  - cbn. lia.
  - cbn. lia.
  - reflexivity.
  - reflexivity.
Defined.

Lemma pass_breaks_or_damps_witness :
  exists st' psi_out,
    candidate minimize_keep (demo_params 3) (demo_lnz 3) (demo_z 3)
      (demo_state 3 [0; 0; 0; 0]) = Ok (st', psi_out)
    /\ psi st' = [0; 0; 0; 0].
Proof.
  destruct (pass_breaks_or_damps minimize_keep (demo_params 3) (demo_lnz 3)
              (demo_z 3) (demo_state 3 [0; 0; 0; 0]) 0 minimize_keep_shape
              (demo_shapes [0; 0; 0; 0] eq_refl))
    as (st' & psi_out & H1 & H2 & _).
  - cbn. lia.
  - exists st', psi_out. split; [exact H1 | exact H2].
Defined.


(** C3, as stated, fails: with a candidate at distance one of the
    coefficients and a tolerance of two the loop stops in its first pass,
    and the coefficients it ends with are the old ones, not the candidate. *)
Lemma break_keeps_old_coefficients :
  exists lnz z st0 st' psi_out,
    simulate_shocks (demo_params 3) [0; 0; 0] = Ok (lnz, z)
    /\ init_state (demo_params 3) [0; 0; 0; 0] = Ok st0
    /\ candidate minimize_bump (demo_params 3) lnz z st0 = Ok (st', psi_out)
    /\ norm (zip_with Rminus (psi st0) psi_out) < psitol (demo_params 3)
    /\ run minimize_bump (demo_params 3) [0; 0; 0] [0; 0; 0; 0] = Ok (st', true)
    /\ psi st' <> psi_out.
Proof.
  destruct (simulate_shocks_ok (demo_params 3) [0; 0; 0]) as (lnz & Hsh & Hl & _);
    [cbn; lia | reflexivity |].
  assert (Hi : init_state (demo_params 3) [0; 0; 0; 0]
               = Ok (demo_state 3 [0; 0; 0; 0])) by reflexivity.
  assert (Hs : shapes_ok (demo_params 3) lnz (map exp lnz) (demo_state 3 [0; 0; 0; 0])).
  { constructor; cbn; rewrite ?length_map; try lia; exact Hl. }
  destruct (pass_ok minimize_bump minimize_bump_shape (demo_params 3) lnz
              (map exp lnz) (demo_state 3 [0; 0; 0; 0]) Hs)
    as (st' & Y & X & psi_out & _ & _ & Hm & Hcand & _ & Hpsi & _ & _ & Hbrk & _);
    [cbn; lia|].
  injection Hm as <-. simpl psi in Hbrk.
  assert (Hlt : norm (zip_with Rminus [0; 0; 0; 0] [0 + 1; 0; 0; 0]) < 2).
  { unfold norm. simpl.
    match goal with |- sqrt ?v < _ => replace v with 1 by ring end.
    rewrite sqrt_1. lra. }
  exists lnz, (map exp lnz), (demo_state 3 [0; 0; 0; 0]), st', [0 + 1; 0; 0; 0].
  split; [exact Hsh|]. split; [exact Hi|]. split; [exact Hcand|].
  split; [exact Hlt|]. split.
  - unfold run. rewrite Hsh, bind_Ok. cbv beta iota. rewrite Hi, bind_Ok.
    change (Z.to_nat 1) with 1%nat. simpl main_loop.
    rewrite (Hbrk Hlt). reflexivity.
  - rewrite Hpsi. simpl. intros E. injection E. lra.
Qed.


(** * Further properties of the code *)

(** ** The Hermite terms and the tensor basis *)

Lemma row_hermterms_lookup (porder : Z) (x : vec) (i j : nat) (a : R) (hx : matrix) :
  (1 <= porder)%Z -> x !! i = Some a -> hermterms porder x = Ok hx ->
  (Z.of_nat j <= porder)%Z -> row i hx !! j = Some (hermterm j a).
Proof.
  intros Hp Ha Hh Hj.
  destruct (hermterms_row porder x i a Hp Ha) as (hx' & Hh' & Hr).
  rewrite Hh in Hh'. injection Hh' as <-. rewrite Hr.
  rewrite list_lookup_fmap, lookup_seq_lt by lia. reflexivity.
Qed.

(** X1. For an order of at least one [hermterms] returns one row per point
    and [porder + 1] columns; in the row of a point [a] the first two
    entries are [1] and [a] and every later entry [j] is
    [a * entry (j-1) - j * entry (j-2)]. *)
Theorem hermterms_rows_recurrence (porder : Z) (x : vec) :
  (1 <= porder)%Z ->
  exists hx, hermterms porder x = Ok hx
    /\ nrows hx = length x
    /\ Z.of_nat (length (cols hx)) = (porder + 1)%Z
    /\ forall (i : nat) (a : R), x !! i = Some a ->
         row i hx !! 0%nat = Some 1 /\ row i hx !! 1%nat = Some a
         /\ forall j : nat, (2 <= j)%nat -> (Z.of_nat j <= porder)%Z ->
              exists h1 h2,
                row i hx !! (j - 1)%nat = Some h1
                /\ row i hx !! (j - 2)%nat = Some h2
                /\ row i hx !! j = Some (a * h1 - IZR (Z.of_nat j) * h2).
Proof.
  intros Hp. destruct (hermterms_total porder x Hp) as (hx & Hh & Hn & Hc).
  exists hx. repeat (split; [assumption|]).
  intros i a Ha.
  split; [apply (row_hermterms_lookup porder x i 0 a hx); auto; lia|].
  split; [apply (row_hermterms_lookup porder x i 1 a hx); auto; lia|].
  intros j Hj2 Hjp. exists (hermterm (j - 1) a), (hermterm (j - 2) a).
  split; [apply (row_hermterms_lookup porder x); auto; lia|].
  split; [apply (row_hermterms_lookup porder x); auto; lia|].
  rewrite (row_hermterms_lookup porder x i j a hx) by (auto; lia).
  destruct j as [|[|j]]; [lia | lia |].
  rewrite hermterm_SS. repeat f_equal; lia.
Qed.

Lemma hermterms_rows_recurrence_witness :
  exists hx, hermterms 3 [2; 5] = Ok hx /\ nrows hx = 2%nat
             /\ row 1 hx !! 1%nat = Some 5.
Proof.
  destruct (hermterms_rows_recurrence 3 [2; 5] ltac:(lia)) as (hx & H & Hn & _ & Hr).
  exists hx. split; [exact H|]. split; [exact Hn|].
  destruct (Hr 1%nat 5 eq_refl) as (_ & H1 & _). exact H1.
Defined.

(** X2. A negative order is rejected: order [-1] by the assignment of the
    second column ([IndexError]), any lower order by the allocation
    ([ValueError]). *)
Theorem hermterms_negative_order_raises (porder : Z) (x : vec) :
  (porder < 0)%Z ->
  hermterms porder x
  = Raise (if (porder =? -1)%Z then IndexError else ValueError).
Proof.
  intros Hp. unfold hermterms, np_full.
  destruct (Z.eqb_spec porder (-1)) as [->|Hne]; [reflexivity|].
  destruct (Z.ltb_spec (porder + 1) 0) as [_|?]; [reflexivity | lia].
Qed.

Lemma hermterms_negative_order_raises_witness :
  hermterms (-1) [2] = Raise IndexError /\ hermterms (-3) [2] = Raise ValueError.
Proof.
  split.
  - apply (hermterms_negative_order_raises (-1) [2]). lia.
  - apply (hermterms_negative_order_raises (-3) [2]). lia.
Defined.

Lemma hermterm_pair_parity (j : nat) (x : R) :
  hermterm_pair j (- x)
  = ((-1) ^ j * (hermterm_pair j x).1, (-1) ^ S j * (hermterm_pair j x).2).
Proof.
  induction j as [|j IH]; simpl hermterm_pair.
  - simpl. f_equal; ring.
  - rewrite IH. destruct (hermterm_pair j x) as [a b]. simpl fst. simpl snd.
    f_equal. simpl pow. ring.
Qed.

(** X3. The entry [j] of a row is an even function of the point when [j]
    is even and an odd one when [j] is odd: at [-a] it is [(-1)^j] times
    its value at [a]. *)
Theorem hermterms_parity (porder : Z) (a : R) :
  (1 <= porder)%Z ->
  exists hx hx', hermterms porder [a] = Ok hx /\ hermterms porder [- a] = Ok hx'
    /\ forall j : nat, (Z.of_nat j <= porder)%Z ->
         exists h, row 0 hx !! j = Some h /\ row 0 hx' !! j = Some ((-1) ^ j * h).
Proof.
  intros Hp.
  destruct (hermterms_total porder [a] Hp) as (hx & Hh & _).
  destruct (hermterms_total porder [- a] Hp) as (hx' & Hh' & _).
  exists hx, hx'. split; [exact Hh|]. split; [exact Hh'|].
  intros j Hj. exists (hermterm j a).
  split; [apply (row_hermterms_lookup porder [a]); auto|].
  rewrite (row_hermterms_lookup porder [- a] 0 j (- a) hx') by auto.
  unfold hermterm. rewrite hermterm_pair_parity. reflexivity.
Qed.

Lemma hermterms_parity_witness :
  exists hx hx', hermterms 3 [2] = Ok hx /\ hermterms 3 [- 2] = Ok hx'.
Proof.
  destruct (hermterms_parity 3 2 ltac:(lia)) as (hx & hx' & H & H' & _).
  exists hx, hx'. split; [exact H | exact H'].
Defined.

Lemma hermpoly_layout_witness :
  exists hk hz P,
    hermterms 1 [2] = Ok hk /\ hermterms 2 [3] = Ok hz
    /\ hermpoly (1%Z, 2%Z) (Matrix 1 [[2]; [3]]) = Ok P
    /\ Z.of_nat (length (cols P)) = 6%Z.
Proof.
  destruct (hermpoly_layout 1 2 (Matrix 1 [[2]; [3]]) [2] [3])
    as (hk & hz & P & Hk & Hz & HP & _ & Hc & _);
    try reflexivity; try lia.
  exists hk, hz, P. repeat (split; [assumption|]). exact Hc.
Defined.

(** X5. The basis is evaluated point by point: the row [hermpoly] returns
    for the point of index [i] of a batch is the row it returns for that
    point alone, as the time loop calls it. *)
Theorem hermpoly_rows_are_pointwise (pk pz : Z) (x : matrix) (xk xz : vec)
    (i : nat) (a b : R) :
  (1 <= pk)%Z -> (1 <= pz)%Z ->
  cols x !! 0%nat = Some xk -> cols x !! 1%nat = Some xz ->
  length xk = nrows x -> length xz = nrows x ->
  xk !! i = Some a -> xz !! i = Some b ->
  exists X P, hermpoly (pk, pz) x = Ok X
              /\ hermpoly (pk, pz) (Matrix 1 [[a]; [b]]) = Ok P
              /\ row i X = row 0 P.
Proof.
  intros Hpk Hpz H0 H1 Lk Lz Ha Hb. eexists _, _.
  split; [apply (hermpoly_ok pk pz x xk xz); assumption|].
  split; [apply (hermpoly_ok pk pz _ [a] [b]); try reflexivity; assumption|].
  simpl nrows.
  rewrite (row_hermpoly_cols _ _ _ xk xz i a b) by assumption.
  rewrite (row_hermpoly_cols _ _ _ [a] [b] 0 a b) by reflexivity.
  reflexivity.
Qed.

Lemma hermpoly_rows_are_pointwise_witness :
  exists X P, hermpoly (1%Z, 1%Z) (Matrix 2 [[2; 4]; [3; 5]]) = Ok X
              /\ hermpoly (1%Z, 1%Z) (Matrix 1 [[4]; [5]]) = Ok P
              /\ row 1 X = row 0 P.
Proof.
  apply (hermpoly_rows_are_pointwise 1 1 (Matrix 2 [[2; 4]; [3; 5]]) [2; 4] [3; 5]);
    try reflexivity; lia.
Defined.

(** X6. [hermpoly] raises [IndexError] when the order in z is 0 and the
    order in k is at least one, whatever the points. *)
Theorem hermpoly_order_z_zero_raises (pk : Z) (x : matrix) :
  (1 <= pk)%Z -> hermpoly (pk, 0%Z) x = Raise IndexError.
Proof.
  intros Hpk. unfold hermpoly. simpl fst. simpl snd.
  destruct (get_col x 0) as [x0|e] eqn:E0.
  - rewrite bind_Ok, hermterms_ok by assumption. rewrite bind_Ok.
    destruct (get_col x 1) as [x1|e] eqn:E1.
    + rewrite bind_Ok, hermterms_order0. reflexivity.
    + apply get_col_raises in E1. subst e. reflexivity.
  - apply get_col_raises in E0. subst e. reflexivity.
Qed.

Lemma hermpoly_order_z_zero_raises_witness :
  hermpoly (1%Z, 0%Z) (Matrix 1 [[2]; [3]]) = Raise IndexError.
Proof. apply hermpoly_order_z_zero_raises. lia. Defined.

Lemma basis_row_1_1 (a b : R) : basis_row 2 4 a b = [1 * 1; 1 * b; a * 1; a * b].
Proof. reflexivity. Qed.

(** X7. With the orders (1, 1) of the notebook the polynomial applied to
    coefficients [psi0, psi1, psi2, psi3] at the point [(a, b)] is
    [psi0 + psi1*b + psi2*a + psi3*a*b]: the constant, the second
    coordinate, the first coordinate and their product, in this order. *)
Theorem basis_dot_orders_1_1 (p : params) (a b p0 p1 p2 p3 : R) :
  porder_k p = 1%Z -> porder_z p = 1%Z ->
  exists d, basis_dot p a b [p0; p1; p2; p3] = Ok [d]
            /\ d = p0 + p1 * b + p2 * a + p3 * (a * b).
Proof.
  intros Hk Hz. eexists. split.
  - apply basis_dot_ok; rewrite ?Hk, ?Hz; try lia. reflexivity.
  - rewrite Hk, Hz.
    change (Z.to_nat (1 + 1)) with 2%nat.
    change (Z.to_nat ((1 + 1) * (1 + 1))) with 4%nat.
    rewrite basis_row_1_1. simpl. ring.
Qed.

Lemma basis_dot_orders_1_1_witness :
  exists d, basis_dot notebook_params 2 3 [1; 0; 0; 1] = Ok [d]
            /\ d = 1 + 0 * 3 + 0 * 2 + 1 * (2 * 3).
Proof. apply basis_dot_orders_1_1; reflexivity. Defined.

(** ** The exogenous process *)

Lemma shock_step_eq (p : params) (draws : vec) (t : Z) (lnz : vec) :
  (1 <= t < T p)%Z ->
  Z.of_nat (length draws) = T p -> Z.of_nat (length lnz) = T p ->
  exists a d, lnz !! Z.to_nat (t - 1) = Some a /\ draws !! Z.to_nat t = Some d
    /\ shock_step p (map (fun e => e * sigma p) draws) t lnz
       = Ok (<[Z.to_nat t:=rho p * a + d * sigma p]> lnz).
Proof.
  intros Ht Hd Hl.
  destruct (getitem_in_range lnz (t - 1)) as (a & Ha & Ga); [lia|].
  destruct (lookup_lt_is_Some_2 draws (Z.to_nat t)) as [d Hdt]; [lia|].
  exists a, d. split; [exact Ha|]. split; [exact Hdt|].
  unfold shock_step. rewrite Ga, bind_Ok.
  rewrite (getitem_ok _ t (d * sigma p)); [|lia|].
  - rewrite bind_Ok. apply setitem_ok. lia.
  - rewrite list_lookup_fmap, Hdt. reflexivity.
Qed.

(** The path the shock cell returns, period by period. *)
Lemma simulate_shocks_rec (p : params) (draws : vec) :
  (1 <= T p)%Z -> Z.of_nat (length draws) = T p ->
  exists lnz, simulate_shocks p draws = Ok (lnz, map exp lnz)
    /\ Z.of_nat (length lnz) = T p /\ lnz !! 0%nat = Some 0
    /\ forall t : nat, (Z.of_nat (S t) < T p)%Z ->
         exists a d, lnz !! t = Some a /\ draws !! S t = Some d
                     /\ lnz !! S t = Some (rho p * a + d * sigma p).
Proof.
  intros HT Hd. unfold simulate_shocks.
  rewrite np_zeros_ok by lia. rewrite bind_Ok.
  rewrite setitem_ok by (rewrite length_replicate; lia). rewrite bind_Ok.
  destruct (for_in_range_inv
              (fun (t : Z) (lnz : vec) =>
                 Z.of_nat (length lnz) = T p /\ lnz !! 0%nat = Some 0
                 /\ forall s : nat, (Z.of_nat (S s) < t)%Z ->
                      exists a d, lnz !! s = Some a /\ draws !! S s = Some d
                                  /\ lnz !! S s = Some (rho p * a + d * sigma p))
              (shock_step p (map (fun e => e * sigma p) draws)) 1 (T p)
              (<[Z.to_nat 0:=0]> (replicate (Z.to_nat (T p)) 0)))
    as (lnz & -> & Hinv); [lia | | | exists lnz; split; [reflexivity | exact Hinv]].
  - rewrite length_insert, length_replicate. split; [lia|]. split.
    + apply list_lookup_insert_eq. rewrite length_replicate. lia.
    + intros s Hs. lia.
  - intros t lnz Ht (Hlen & H0 & Hrec).
    destruct (shock_step_eq p draws t lnz Ht Hd Hlen) as (a & d & Ha & Hdt & ->).
    eexists. split; [reflexivity|]. rewrite length_insert.
    split; [exact Hlen|]. split.
    + rewrite list_lookup_insert_ne by lia. exact H0.
    + intros s Hs. destruct (decide (Z.of_nat (S s) < t)%Z) as [Hlt|Hge].
      * destruct (Hrec s Hlt) as (a' & d' & Ha' & Hd' & Hn').
        exists a', d'. rewrite !list_lookup_insert_ne by lia. auto.
      * assert (Z.to_nat t = S s) as Et by lia.
        assert (Z.to_nat (t - 1) = s) as Et' by lia.
        rewrite Et, Et' in *. exists a, d.
        rewrite list_lookup_insert_ne by lia.
        rewrite list_lookup_insert_eq by lia. auto.
Qed.

(** X8. For [T >= 1] the shock cell returns two series of length [T]:
    [lnz] starts at [0] and follows
    [lnz[t+1] = rho*lnz[t] + sigma*draw[t+1]], and [z] is its exponential,
    hence strictly positive. *)
Theorem shocks_follow_ar1 (p : params) (draws : vec) :
  (1 <= T p)%Z -> Z.of_nat (length draws) = T p ->
  exists lnz z, simulate_shocks p draws = Ok (lnz, z)
    /\ Z.of_nat (length lnz) = T p /\ Z.of_nat (length z) = T p
    /\ lnz !! 0%nat = Some 0
    /\ (forall t : nat, (Z.of_nat (S t) < T p)%Z ->
          exists a d, lnz !! t = Some a /\ draws !! S t = Some d
                      /\ lnz !! S t = Some (rho p * a + d * sigma p))
    /\ forall (t : nat) (v : R), z !! t = Some v ->
         0 < v /\ exists l, lnz !! t = Some l /\ v = exp l.
Proof.
  intros HT Hd.
  destruct (simulate_shocks_rec p draws HT Hd) as (lnz & Hs & Hl & H0 & Hrec).
  exists lnz, (map exp lnz). split; [exact Hs|]. split; [exact Hl|].
  split; [rewrite length_map; exact Hl|]. split; [exact H0|]. split; [exact Hrec|].
  intros t v Hv. rewrite list_lookup_fmap in Hv.
  destruct (lnz !! t) as [l|]; [|discriminate]. injection Hv as <-.
  split; [apply exp_pos|]. exists l. split; reflexivity.
Qed.

Lemma shocks_follow_ar1_witness :
  exists lnz z, simulate_shocks (demo_params 3) [7; 1; 2] = Ok (lnz, z)
                /\ lnz !! 0%nat = Some 0.
Proof.
  destruct (shocks_follow_ar1 (demo_params 3) [7; 1; 2])
    as (lnz & z & H & _ & _ & H0 & _); [cbn; lia | reflexivity |].
  exists lnz, z. split; [exact H | exact H0].
Defined.

(** X9. With [T = 0] the shock cell raises [IndexError] (the assignment
    [lnz[0] = 0] has no slot), with a negative [T] it raises [ValueError]
    (the allocation), whatever the draws. *)
Theorem shocks_reject_nonpositive_T (p : params) (draws : vec) :
  (T p <= 0)%Z ->
  simulate_shocks p draws
  = Raise (if (T p =? 0)%Z then IndexError else ValueError).
Proof.
  intros HT. unfold simulate_shocks, np_zeros.
  destruct (Z.eqb_spec (T p) 0) as [->|Hne]; [reflexivity|].
  destruct (Z.ltb_spec (T p) 0) as [_|?]; [reflexivity | lia].
Qed.

Lemma shocks_reject_nonpositive_T_witness :
  simulate_shocks (demo_params 0) [] = Raise IndexError
  /\ simulate_shocks (demo_params (-2)) [] = Raise ValueError.
Proof.
  split.
  - apply (shocks_reject_nonpositive_T (demo_params 0) []). cbn. lia.
  - apply (shocks_reject_nonpositive_T (demo_params (-2)) []). cbn. lia.
Defined.

(** X10. Without noise ([sigma = 0]) the log-productivity stays at zero and
    the productivity at one in every period, whatever the draws and the
    persistence. *)
Theorem shocks_without_noise (p : params) (draws : vec) :
  sigma p = 0 -> (1 <= T p)%Z -> Z.of_nat (length draws) = T p ->
  exists lnz z, simulate_shocks p draws = Ok (lnz, z)
    /\ (forall (t : nat) (v : R), lnz !! t = Some v -> v = 0)
    /\ (forall (t : nat) (v : R), z !! t = Some v -> v = 1).
Proof.
  intros Hsig HT Hd.
  destruct (simulate_shocks_rec p draws HT Hd) as (lnz & Hs & Hl & H0 & Hrec).
  assert (Hz : forall (t : nat) (v : R), lnz !! t = Some v -> v = 0).
  { induction t as [|t IH]; intros v Hv.
    - rewrite H0 in Hv. injection Hv as <-. reflexivity.
    - assert (Ht : (Z.of_nat (S t) < T p)%Z)
        by (apply lookup_lt_Some in Hv; lia).
      destruct (Hrec t Ht) as (a & d & Ha & _ & Hn).
      rewrite Hn in Hv. injection Hv as <-.
      rewrite (IH a Ha), Hsig. ring. }
  exists lnz, (map exp lnz). split; [exact Hs|]. split; [exact Hz|].
  intros t v Hv. rewrite list_lookup_fmap in Hv.
  destruct (lnz !! t) as [l|] eqn:El; [|discriminate]. injection Hv as <-.
  rewrite (Hz t l El). apply exp_0.
Qed.

Lemma shocks_without_noise_witness :
  exists lnz z,
    simulate_shocks (Params (1/2) (4/5) 3 (1/4) 0 (1/2) 3 2 1 1 1 2 (1/2)) [7; 1; 2]
    = Ok (lnz, z)
    /\ (forall (t : nat) (v : R), z !! t = Some v -> v = 1).
Proof.
  destruct (shocks_without_noise
              (Params (1/2) (4/5) 3 (1/4) 0 (1/2) 3 2 1 1 1 2 (1/2)) [7; 1; 2])
    as (lnz & z & H & _ & Hz); [reflexivity | cbn; lia | reflexivity |].
  exists lnz, z. split; [exact H | exact Hz].
Defined.

(** ** The steady state *)

(** X11. For a positive base [(1-beta+delta*beta)/(alpha*beta)] and
    [alpha <> 1] the capital [k_ss] solves the steady-state Euler equation
    [beta * (alpha * k^(alpha-1) + 1 - delta) = 1], and [c_ss] is the
    consumption that keeps capital at [k_ss] under unit productivity. *)
Theorem k_ss_solves_euler (p : params) :
  0 < (1 - beta p + delta p * beta p) / (alpha p * beta p) ->
  alpha p <> 1 ->
  beta p * (alpha p * Rpower (k_ss p) (alpha p - 1) + 1 - delta p) = 1
  /\ 1 * Rpower (k_ss p) (alpha p) + (1 - delta p) * k_ss p - c_ss p = k_ss p.
Proof.
  intros Hb Ha. split; [|unfold c_ss; ring].
  assert (Hab : alpha p * beta p <> 0).
  { intros E. rewrite E in Hb. unfold Rdiv in Hb.
    rewrite Rinv_0, Rmult_0_r in Hb. lra. }
  unfold k_ss. rewrite Rpower_mult.
  replace (1 / (alpha p - 1) * (alpha p - 1)) with 1 by (field; lra).
  rewrite Rpower_1 by assumption. field.
  split; intros E; apply Hab; rewrite E; ring.
Qed.

Lemma k_ss_solves_euler_witness :
  beta notebook_params
  * (alpha notebook_params
     * Rpower (k_ss notebook_params) (alpha notebook_params - 1)
     + 1 - delta notebook_params) = 1.
Proof.
  apply (k_ss_solves_euler notebook_params).
  - cbn. apply Rdiv_lt_0_compat; lra.
  - cbn. lra.
Defined.

(** X12. The steady state is a rest point of the simulation: when the
    log-productivity is zero and the productivity one in every period and
    the coefficients make the consumption at [(log k_ss, 0)] equal to
    [c_ss], capital stays at [k_ss] in every period and consumption at
    [c_ss] from the period 1 on. *)
Theorem steady_state_is_stationary (p : params) (lnz z : vec) (st : state) (d : R) :
  shapes_ok p lnz z st ->
  (forall (t : nat) (v : R), lnz !! t = Some v -> v = 0) ->
  (forall (t : nat) (v : R), z !! t = Some v -> v = 1) ->
  basis_dot p (ln (k_ss p)) 0 (psi st) = Ok [d] ->
  exp (- d / nu p) = c_ss p ->
  exists st', simulate p lnz z st = Ok st'
    /\ forall t : nat, (Z.of_nat t < T p)%Z ->
         k st' !! t = Some (k_ss p)
         /\ ((1 <= t)%nat -> c st' !! t = Some (c_ss p)).
Proof.
  intros Hs Hlnz Hz Hd Hexp.
  destruct (simulate_ok p lnz z st Hs) as (st' & Hsim & _ & Hpsi & _ & Hk0 & Htr).
  exists st'. split; [exact Hsim|].
  assert (Hstep : forall t : nat, (Z.of_nat (S t) < T p)%Z ->
            k st' !! t = Some (k_ss p) ->
            k st' !! S t = Some (k_ss p) /\ c st' !! S t = Some (c_ss p)).
  { intros t Ht Hkt.
    destruct (Htr t Ht) as (kp & lz & zt & d' & Hkp & _ & Hlz & Hzt & Hd' & Hc & Hk).
    rewrite Hkt in Hkp. injection Hkp as <-.
    rewrite (Hlnz t lz Hlz), Hpsi, Hd in Hd'. injection Hd' as <-.
    rewrite (Hz (S t) zt Hzt) in Hk. rewrite Hexp in Hc, Hk.
    split; [|exact Hc]. rewrite Hk. f_equal. unfold c_ss. ring. }
  assert (Hk : forall t : nat, (Z.of_nat t < T p)%Z -> k st' !! t = Some (k_ss p)).
  { induction t as [|t IH]; intros Ht; [exact Hk0|].
    apply Hstep; [exact Ht | apply IH; lia]. }
  intros t Ht. split; [apply Hk; exact Ht|].
  intros H1. destruct t as [|t]; [lia|].
  apply Hstep; [exact Ht | apply Hk; lia].
Qed.

Lemma steady_state_is_stationary_witness :
  exists st', simulate (demo_params 3) (demo_lnz 3) (demo_z 3)
                (demo_state 3 [-3 * ln (3/4); 0; 0; 0]) = Ok st'
    /\ forall t : nat, (Z.of_nat t < 3)%Z ->
         k st' !! t = Some (k_ss (demo_params 3))
         /\ ((1 <= t)%nat -> c st' !! t = Some (c_ss (demo_params 3))).
Proof.
  apply (steady_state_is_stationary (demo_params 3) (demo_lnz 3) (demo_z 3)
           (demo_state 3 [-3 * ln (3/4); 0; 0; 0])
           (vsum (zip_with Rmult (basis_row 2 4 (ln (k_ss (demo_params 3))) 0)
                             [-3 * ln (3/4); 0; 0; 0]))).
  - apply demo_shapes. reflexivity.
  - intros t v H. apply lookup_replicate in H. tauto.
  - intros t v H. apply lookup_replicate in H. tauto.
  - apply basis_dot_ok; cbn; lia.
  - unfold c_ss. rewrite k_ss_demo, basis_row_1_1. cbn.
    assert (Rpower 1 (1 / 2) = 1) as ->
      by (unfold Rpower; rewrite ln_1, Rmult_0_r; apply exp_0).
    rewrite ln_1.
    match goal with |- exp ?a = _ => replace a with (ln (3/4)) by field end.
    rewrite exp_ln by lra. lra.
Defined.

(** ** The simulation of one pass *)

(** What the time loop does to [lnk]: the entry 0 is the logarithm of the
    steady state, and no entry from [T-1] on (other than 0) is written. *)
Lemma simulate_lnk_facts (p : params) (lnz z : vec) (st : state) :
  shapes_ok p lnz z st ->
  exists st', simulate p lnz z st = Ok st'
    /\ lnk st' !! 0%nat = Some (ln (k_ss p))
    /\ forall i : nat, (1 <= i)%nat -> (T p - 1 <= Z.of_nat i)%Z ->
                       lnk st' !! i = lnk st !! i.
Proof.
  intros Hs. pose proof Hs as [Hpk Hpz HT Hlnz Hz Hc Hk Hlnk Hpsi].
  unfold simulate.
  rewrite setitem_ok by lia. rewrite bind_Ok.
  rewrite (getitem_ok _ 0 (k_ss p)) by
    (try lia; apply list_lookup_insert_eq; lia).
  rewrite bind_Ok, setitem_ok by lia. rewrite bind_Ok.
  destruct (for_in_range_inv
              (fun t st1 =>
                 shapes_ok p lnz z st1
                 /\ k st1 !! 0%nat = Some (k_ss p)
                 /\ lnk st1 !! 0%nat = Some (ln (k_ss p))
                 /\ forall i : nat, (1 <= i)%nat -> (t - 1 <= Z.of_nat i)%Z ->
                                    lnk st1 !! i = lnk st !! i)
              (sim_step p lnz z) 1 (T p)
              (State (c st) (<[Z.to_nat 0:=k_ss p]> (k st))
                     (<[Z.to_nat 0:=ln (k_ss p)]> (lnk st)) (psi st)))
    as (st' & -> & _ & _ & Hl0 & Hrest); [lia | | | eauto].
  - split; [|split; [|split]].
    + constructor; simpl; rewrite ?length_insert; assumption.
    + simpl. apply list_lookup_insert_eq. lia.
    + simpl. apply list_lookup_insert_eq. lia.
    + intros i Hi _. simpl. apply list_lookup_insert_ne. lia.
  - intros t st1 Ht (Hs1 & Hk1 & Hl1 & Hr1).
    destruct (sim_step_ok p lnz z t st1 Hs1 Ht)
      as (kp & lz & zt & d & Hkp & _ & _ & _ & ->).
    pose proof Hs1 as [_ _ _ _ _ Hc' Hk' Hlnk' Hpsi'].
    eexists. split; [reflexivity|]. split; [|split; [|split]].
    + constructor; simpl; rewrite ?length_insert; assumption.
    + simpl. rewrite list_lookup_insert_ne by lia. exact Hk1.
    + simpl. destruct (decide (t = 1%Z)) as [->|Hne].
      * change (Z.to_nat (1 - 1)) with 0%nat in *.
        rewrite Hk1 in Hkp. injection Hkp as <-.
        apply list_lookup_insert_eq. lia.
      * rewrite list_lookup_insert_ne by lia. exact Hl1.
    + intros i Hi Hti. simpl. rewrite list_lookup_insert_ne by lia.
      apply Hr1; lia.
Qed.

(** X13. The time loop stores [lnk[t] = log(k[t])] for the periods
    [t < T - 1] only: the last entry of [lnk] is never written and keeps
    the value it had before the pass. *)
Theorem last_log_capital_never_written (p : params) (lnz z : vec) (st : state) :
  shapes_ok p lnz z st -> (2 <= T p)%Z ->
  exists st', simulate p lnz z st = Ok st'
    /\ lnk st' !! Z.to_nat (T p - 1) = lnk st !! Z.to_nat (T p - 1)
    /\ forall t : nat, (Z.of_nat (S t) < T p)%Z ->
         exists kp, k st' !! t = Some kp /\ lnk st' !! t = Some (ln kp).
Proof.
  intros Hs HT.
  destruct (simulate_ok p lnz z st Hs) as (st' & Hsim & _ & _ & _ & _ & Htr).
  destruct (simulate_lnk_facts p lnz z st Hs) as (st2 & Hsim2 & _ & Hrest).
  rewrite Hsim in Hsim2. injection Hsim2 as <-.
  exists st'. split; [exact Hsim|]. split; [apply Hrest; lia|].
  intros t Ht. destruct (Htr t Ht) as (kp & _ & _ & _ & Hk & Hl & _).
  exists kp. split; assumption.
Qed.

Lemma last_log_capital_never_written_witness :
  exists st', simulate (demo_params 3) (demo_lnz 3) (demo_z 3)
                (demo_state 3 [0; 0; 0; 0]) = Ok st'
              /\ lnk st' !! 2%nat = Some 0.
Proof.
  destruct (last_log_capital_never_written (demo_params 3) (demo_lnz 3) (demo_z 3)
              (demo_state 3 [0; 0; 0; 0]) (demo_shapes [0; 0; 0; 0] eq_refl))
    as (st' & H & Hl & _); [cbn; lia|].
  exists st'. split; [exact H | exact Hl].
Defined.

(** X14. After the simulation the consumption of a period is strictly
    positive whenever the capital of the period before is: for every
    [t+1 < T] with [k[t] > 0] (so that [log(k[t])] is a number),
    [c[t+1] > 0]. *)
Theorem consumption_positive_after_positive_capital
    (p : params) (lnz z : vec) (st : state) :
  shapes_ok p lnz z st ->
  exists st', simulate p lnz z st = Ok st'
    /\ forall (t : nat) (kp : R), (Z.of_nat (S t) < T p)%Z ->
         k st' !! t = Some kp -> 0 < kp ->
         exists v, c st' !! S t = Some v /\ 0 < v.
Proof.
  intros Hs.
  destruct (simulate_ok p lnz z st Hs) as (st' & Hsim & _ & _ & _ & _ & Htr).
  exists st'. split; [exact Hsim|].
  intros t kp Ht _ _.
  destruct (Htr t Ht) as (kp' & lz & zt & d & _ & _ & _ & _ & _ & Hc & _).
  eexists. split; [exact Hc | apply exp_pos].
Qed.

Lemma consumption_positive_after_positive_capital_witness :
  exists st', simulate (demo_params 3) (demo_lnz 3) (demo_z 3)
                (demo_state 3 [0; 0; 0; 0]) = Ok st'
    /\ exists v, c st' !! 1%nat = Some v /\ 0 < v.
Proof.
  destruct (consumption_positive_after_positive_capital (demo_params 3)
              (demo_lnz 3) (demo_z 3) (demo_state 3 [0; 0; 0; 0])
              (demo_shapes [0; 0; 0; 0] eq_refl))
    as (st' & Hsim & Hpos).
  destruct (simulate_ok (demo_params 3) (demo_lnz 3) (demo_z 3)
              (demo_state 3 [0; 0; 0; 0]) (demo_shapes [0; 0; 0; 0] eq_refl))
    as (st1 & Hsim1 & _ & _ & _ & Hk0 & _).
  rewrite Hsim in Hsim1. injection Hsim1 as <-.
  exists st'. split; [exact Hsim|].
  apply (Hpos 0%nat (k_ss (demo_params 3))); [cbn; lia | exact Hk0 |].
  rewrite k_ss_demo. lra.
Defined.

Lemma trajectory_step_agree (p : params) (lnz z : vec) (s1 s2 : state) (t : nat) :
  psi s1 = psi s2 ->
  trajectory_at p lnz z s1 t -> trajectory_at p lnz z s2 t ->
  k s1 !! t = k s2 !! t ->
  k s1 !! S t = k s2 !! S t /\ c s1 !! S t = c s2 !! S t
  /\ lnk s1 !! t = lnk s2 !! t.
Proof.
  intros Hpsi (kp & lz & zt & d & Hk & Hl & Hlz & Hz & Hd & Hc & Hk')
         (kp2 & lz2 & zt2 & d2 & Hk2 & Hl2 & Hlz2 & Hz2 & Hd2 & Hc2 & Hk2') Hkk.
  rewrite Hk, Hk2 in Hkk. injection Hkk as <-.
  rewrite Hlz in Hlz2. injection Hlz2 as <-.
  rewrite Hz in Hz2. injection Hz2 as <-.
  rewrite <- Hpsi, Hd in Hd2. injection Hd2 as <-.
  rewrite Hk', Hk2', Hc, Hc2, Hl, Hl2. auto.
Qed.

(** X15. The simulation of a pass starts afresh: two states with the same
    coefficients, the same [c[0]] and the same last entry of [lnk] give
    the same state after the simulation, whatever else the arrays held
    from an earlier pass. *)
Theorem simulate_forgets_previous_pass (p : params) (lnz z : vec) (s1 s2 : state) :
  shapes_ok p lnz z s1 -> shapes_ok p lnz z s2 ->
  psi s1 = psi s2 -> c s1 !! 0%nat = c s2 !! 0%nat ->
  lnk s1 !! Z.to_nat (T p - 1) = lnk s2 !! Z.to_nat (T p - 1) ->
  exists st', simulate p lnz z s1 = Ok st' /\ simulate p lnz z s2 = Ok st'.
Proof.
  intros Hs1 Hs2 Hpsi Hc0 Hlast.
  destruct (simulate_ok p lnz z s1 Hs1) as (a & Ha & Hsa & Hpa & Hca & Hka & Hta).
  destruct (simulate_ok p lnz z s2 Hs2) as (b & Hb & Hsb & Hpb & Hcb & Hkb & Htb).
  destruct (simulate_lnk_facts p lnz z s1 Hs1) as (a' & Ha' & Hla & Hra).
  rewrite Ha in Ha'. injection Ha' as <-.
  destruct (simulate_lnk_facts p lnz z s2 Hs2) as (b' & Hb' & Hlb & Hrb).
  rewrite Hb in Hb'. injection Hb' as <-.
  exists a. split; [exact Ha|]. rewrite Hb. f_equal. symmetry.
  assert (Hpab : psi a = psi b) by congruence.
  destruct Hsa as [_ _ HT _ _ Lca Lka Lla _]. destruct Hsb as [_ _ _ _ _ Lcb Lkb Llb _].
  assert (Hk : forall t : nat, (Z.of_nat t < T p)%Z -> k a !! t = k b !! t).
  { induction t as [|t IH]; intros Ht; [congruence|].
    apply (trajectory_step_agree p lnz z a b t Hpab); auto. apply IH. lia. }
  assert (Hc : forall t : nat, c a !! t = c b !! t).
  { intros [|t]; [congruence|].
    destruct (decide (Z.of_nat (S t) < T p)%Z) as [Ht|Ht].
    - apply (trajectory_step_agree p lnz z a b t Hpab); auto. apply Hk. lia.
    - rewrite !lookup_ge_None_2 by lia. reflexivity. }
  assert (Hl : forall t : nat, lnk a !! t = lnk b !! t).
  { intros t. destruct (decide (Z.of_nat (S t) < T p)%Z) as [Ht|Ht].
    - apply (trajectory_step_agree p lnz z a b t Hpab); auto. apply Hk. lia.
    - destruct (decide (Z.of_nat t < T p)%Z) as [Ht'|Ht'].
      + destruct t as [|t]; [congruence|].
        rewrite Hra, Hrb by lia.
        replace (S t) with (Z.to_nat (T p - 1)) by lia. exact Hlast.
      + rewrite !lookup_ge_None_2 by lia. reflexivity. }
  assert (Hk' : forall t : nat, k a !! t = k b !! t).
  { intros t. destruct (decide (Z.of_nat t < T p)%Z) as [Ht|Ht].
    - apply Hk. exact Ht.
    - rewrite !lookup_ge_None_2 by lia. reflexivity. }
  destruct a as [ca ka la pa], b as [cb kb lb pb]. simpl in *.
  f_equal; [apply list_eq, Hc | apply list_eq, Hk' | apply list_eq, Hl | exact Hpab].
Qed.

Lemma simulate_forgets_previous_pass_witness :
  exists st',
    simulate (demo_params 3) (demo_lnz 3) (demo_z 3) (demo_state 3 [0; 0; 0; 0])
    = Ok st'
    /\ simulate (demo_params 3) (demo_lnz 3) (demo_z 3)
         (State [0; 8; 9] [4; 5; 6] [1; 2; 0] [0; 0; 0; 0]) = Ok st'.
Proof.
  apply simulate_forgets_previous_pass.
  - apply demo_shapes. reflexivity.
  - constructor; cbn; lia.
  - reflexivity.
  - reflexivity.
  - reflexivity.
Defined.

(** ** The objective and the regression sample *)

Lemma vsum_squares (f : nat -> R) (l : list nat) :
  0 <= vsum (map (fun i => f i * f i) l)
  /\ (vsum (map (fun i => f i * f i) l) = 0 <-> forall i, In i l -> f i = 0).
Proof.
  induction l as [|a l [IH0 IH]]; simpl.
  - split; [lra|]. split; [intros _ i [] | reflexivity].
  - split; [nra|]. split.
    + intros H i [<-|Hi]; [nra | apply IH; [nra | exact Hi]].
    + intros H. rewrite (H a) by (left; reflexivity).
      assert (vsum (map (fun i => f i * f i) l) = 0) as ->
        by (apply IH; intros i Hi; apply H; right; exact Hi).
      ring.
Qed.

(** The value of [rss] in terms of the residuals of the rows. *)
Lemma rss_residuals (coef Y : vec) (X : matrix) :
  length Y = nrows X -> length (cols X) = length coef ->
  rss coef Y X
  = Ok (vsum (map (fun i =>
                     (default 0 (Y !! i) - exp (vsum (zip_with Rmult (row i X) coef)))
                     * (default 0 (Y !! i) - exp (vsum (zip_with Rmult (row i X) coef))))
                  (seq 0 (nrows X)))).
Proof.
  intros HY HX. unfold rss, np_dot. rewrite HX, Nat.eqb_refl, !bind_Ok.
  rewrite broadcast_same by (rewrite !length_map, length_seq; exact HY).
  rewrite !bind_Ok.
  rewrite broadcast_same by (rewrite !length_map, length_seq; exact HY).
  rewrite bind_Ok. unfold inner. rewrite Nat.eqb_refl. f_equal. f_equal.
  rewrite (list_as_map Y) at 1 2. rewrite HY, map_map.
  rewrite (zip_with_map_map Rminus). rewrite (zip_with_map_map Rmult).
  reflexivity.
Qed.

(** X16. For matching shapes the objective is never negative, and it is
    zero exactly when every row is fitted: [Y[i] = exp(X[i].coef)] for
    every row [i]. *)
Theorem rss_nonnegative_zero_iff_fit (coef Y : vec) (X : matrix) :
  length Y = nrows X -> length (cols X) = length coef ->
  exists v, rss coef Y X = Ok v /\ 0 <= v
    /\ (v = 0 <-> forall i : nat, (i < nrows X)%nat ->
                    default 0 (Y !! i) = exp (vsum (zip_with Rmult (row i X) coef))).
Proof.
  intros HY HX. eexists. split; [apply rss_residuals; assumption|].
  pose proof (vsum_squares
                (fun i => default 0 (Y !! i)
                          - exp (vsum (zip_with Rmult (row i X) coef)))
                (seq 0 (nrows X))) as [H0 Hiff].
  split; [exact H0|]. rewrite Hiff. split.
  - intros H i Hi. specialize (H i). rewrite in_seq in H.
    specialize (H ltac:(lia)). lra.
  - intros H i Hi. apply in_seq in Hi. rewrite (H i) by lia. ring.
Qed.

Lemma rss_nonnegative_zero_iff_fit_witness :
  exists v, rss [0] [1; 1] (Matrix 2 [[5; 7]]) = Ok v /\ 0 <= v.
Proof.
  destruct (rss_nonnegative_zero_iff_fit [0] [1; 1] (Matrix 2 [[5; 7]]))
    as (v & H & H0 & _); [reflexivity | reflexivity |].
  exists v. split; [exact H | exact H0].
Defined.

(** X17. With [T1 = T] the regression sample is empty: [Y] has no entry,
    [X] no row, and the objective handed to the minimizer is zero at every
    coefficient vector of the basis dimension. *)
Theorem sample_empty_when_T1_is_T (p : params) (lnz z : vec) (st : state) :
  shapes_ok p lnz z st -> T1 p = T p -> (2 <= T p)%Z ->
  exists X, build_sample p lnz z st = Ok ([], X) /\ nrows X = 0%nat
    /\ forall coef : vec,
         Z.of_nat (length coef) = ((porder_k p + 1) * (porder_z p + 1))%Z ->
         rss coef [] X = Ok 0.
Proof.
  intros Hs HT1 HT.
  destruct (build_sample_ok p lnz z st Hs ltac:(lia)) as (Y & X & Hb & HY & HX & Hc & _).
  replace (Z.to_nat (T p - T1 p)) with 0%nat in * by lia.
  destruct Y as [|y Y]; [|discriminate].
  exists X. split; [exact Hb|]. split; [exact HX|].
  intros coef Hcoef. unfold rss, np_dot.
  replace (length (cols X)) with (length coef) by lia.
  rewrite Nat.eqb_refl, HX. reflexivity.
Qed.

Lemma sample_empty_when_T1_is_T_witness :
  exists X, build_sample (demo_params 2) (demo_lnz 2) (demo_z 2)
              (demo_state 2 [0; 0; 0; 0]) = Ok ([], X)
            /\ nrows X = 0%nat.
Proof.
  destruct (sample_empty_when_T1_is_T (demo_params 2) (demo_lnz 2) (demo_z 2)
              (demo_state 2 [0; 0; 0; 0]))
    as (X & H & Hn & _).
  - constructor; cbn; lia.
  - reflexivity.
  - cbn. lia.
  - exists X. split; [exact H | exact Hn].
Defined.

(** X18. With [T1 = 1] and at least two periods the sample cannot be
    built: the slice [lnk[T1-2:T-2]] starts at the index [-1], which
    counts from the end, so it is empty while [lnz[T1-1:T-1]] is not, and
    the pass raises. *)
Theorem sample_fails_when_T1_is_1 (p : params) (lnz z : vec) (st : state) :
  shapes_ok p lnz z st -> T1 p = 1%Z -> (2 <= T p)%Z ->
  exists e, build_sample p lnz z st = Raise e.
Proof.
  intros [Hpk Hpz _ Hlnz Hz Hc Hk Hlnk Hpsi] HT1 HT. unfold build_sample.
  rewrite HT1.
  assert (Lc : length (slice (c st) 1 (T p)) = Z.to_nat (T p - 1))
    by (apply length_slice; lia).
  assert (Lz : length (slice z 1 (T p)) = Z.to_nat (T p - 1))
    by (apply length_slice; lia).
  assert (Lk : length (slice (k st) (1 - 1) (T p - 1)) = Z.to_nat (T p - 1))
    by (rewrite length_slice by lia; lia).
  assert (Ll : length (slice (lnk st) (1 - 2) (T p - 2)) = 0%nat).
  { unfold slice. rewrite length_take. unfold slice_bound.
    destruct (Z.ltb_spec (1 - 2) 0), (Z.ltb_spec (T p - 2) 0); lia. }
  assert (Lz' : length (slice lnz (1 - 1) (T p - 1)) = Z.to_nat (T p - 1))
    by (rewrite length_slice by lia; lia).
  rewrite broadcast_same by (rewrite !length_map; lia). rewrite bind_Ok.
  rewrite broadcast_same by (rewrite !length_map, length_zip_with, !length_map; lia).
  rewrite bind_Ok. unfold columns2. rewrite Ll, Lz'.
  destruct (Nat.eqb_spec 0 (Z.to_nat (T p - 1))) as [E|_]; [lia|].
  eexists. reflexivity.
Qed.

Lemma sample_fails_when_T1_is_1_witness :
  exists e,
    build_sample (Params (1/2) (4/5) 3 (1/4) 1 (1/2) 3 1 1 1 1 2 (1/2))
      (demo_lnz 3) (demo_z 3) (demo_state 3 [0; 0; 0; 0]) = Raise e.
Proof.
  apply sample_fails_when_T1_is_1.
  - constructor; cbn; lia.
  - reflexivity.
  - cbn. lia.
Defined.

(** ** The passes of the main loop *)

Lemma norm_nonneg (u : vec) : 0 <= norm u.
Proof. apply sqrt_pos. Qed.

Lemma norm_diag (u : vec) : norm (zip_with Rminus u u) = 0.
Proof.
  unfold norm.
  assert (vsum (map (fun a => a * a) (zip_with Rminus u u)) = 0) as ->.
  { induction u as [|a u IH]; simpl; [reflexivity|]. rewrite IH. ring. }
  apply sqrt_0.
Qed.

Lemma sum_squares_nonneg (u : vec) : 0 <= vsum (map (fun a => a * a) u).
Proof. induction u as [|a u IH]; simpl; [lra | nra]. Qed.

(** The squared distance to the candidate after a damped step. *)
Lemma damped_sum_squares (l : R) (out cur : vec) :
  length out = length cur ->
  vsum (map (fun a => a * a)
          (zip_with Rminus
             (zip_with Rplus (map (Rmult l) out) (map (Rmult (1 - l)) cur)) out))
  = Rsqr (1 - l) * vsum (map (fun a => a * a) (zip_with Rminus cur out)).
Proof.
  revert cur. induction out as [|b out IH]; intros [|a cur] H; simpl in *;
    try discriminate.
  - unfold Rsqr. ring.
  - rewrite IH by lia. unfold Rsqr. ring.
Qed.

Lemma damped_full (out cur : vec) :
  length out = length cur ->
  zip_with Rplus (map (Rmult 1) out) (map (Rmult (1 - 1)) cur) = out.
Proof.
  revert cur. induction out as [|b out IH]; intros [|a cur] H; simpl in *;
    try discriminate; [reflexivity|].
  f_equal; [ring | apply IH; lia].
Qed.

(** X19. A fit that returns its starting point ends the loop at once: when
    the tolerance is positive and the minimizer gives back the current
    coefficients, the pass executes [break] and the coefficients are
    unchanged. *)
Theorem loop_stops_when_fit_returns_start
    (minimize : (vec -> result R) -> vec -> result vec)
    (p : params) (lnz z : vec) (st : state) (n : nat) :
  (forall f x0, exists x, minimize f x0 = Ok x /\ length x = length x0) ->
  (forall f, minimize f (psi st) = Ok (psi st)) ->
  shapes_ok p lnz z st -> (2 <= T1 p <= T p)%Z -> 0 < psitol p ->
  exists st', simulate p lnz z st = Ok st'
    /\ main_loop minimize (S n) p lnz z st = Ok (st', true)
    /\ psi st' = psi st.
Proof.
  intros Hmin Hfix Hs HT1 Htol.
  destruct (pass_ok minimize Hmin p lnz z st Hs HT1)
    as (st' & Y & X & psi_out & Hsim & _ & Hm & _ & _ & Hpsi & _ & _ & Hbrk & _).
  rewrite Hfix in Hm. injection Hm as <-.
  exists st'. split; [exact Hsim|]. split; [|exact Hpsi].
  simpl. rewrite Hbrk; [reflexivity|]. rewrite norm_diag. exact Htol.
Qed.

Lemma loop_stops_when_fit_returns_start_witness :
  exists st', simulate (demo_params 3) (demo_lnz 3) (demo_z 3)
                (demo_state 3 [0; 0; 0; 0]) = Ok st'
    /\ main_loop minimize_keep 5 (demo_params 3) (demo_lnz 3) (demo_z 3)
         (demo_state 3 [0; 0; 0; 0]) = Ok (st', true)
    /\ psi st' = [0; 0; 0; 0].
Proof.
  apply (loop_stops_when_fit_returns_start minimize_keep (demo_params 3)
           (demo_lnz 3) (demo_z 3) (demo_state 3 [0; 0; 0; 0]) 4).
  - exact minimize_keep_shape.
  - reflexivity.
  - apply demo_shapes. reflexivity.
  - cbn. lia.
  - cbn. lra.
Defined.



(** X21. A pass that does not stop moves the coefficients towards the
    candidate: their distance to the candidate is [|1 - lrate|] times what
    it was, and with [lrate = 1] the new coefficients are the candidate
    itself. *)
Theorem damped_update_contracts
    (minimize : (vec -> result R) -> vec -> result vec)
    (p : params) (lnz z : vec) (st : state) :
  (forall f x0, exists x, minimize f x0 = Ok x /\ length x = length x0) ->
  shapes_ok p lnz z st -> (2 <= T1 p <= T p)%Z ->
  exists st' psi_out,
    candidate minimize p lnz z st = Ok (st', psi_out)
    /\ (~ norm (zip_with Rminus (psi st) psi_out) < psitol p ->
        exists st'', pass minimize p lnz z st = Ok (st'', false)
          /\ norm (zip_with Rminus (psi st'') psi_out)
             = Rabs (1 - lrate p) * norm (zip_with Rminus (psi st) psi_out)
          /\ (lrate p = 1 -> psi st'' = psi_out)).
Proof.
  intros Hmin Hs HT1.
  destruct (pass_ok minimize Hmin p lnz z st Hs HT1)
    as (st' & Y & X & psi_out & _ & _ & _ & Hcand & _ & _ & _ & Hlen & _ & Hupd).
  exists st', psi_out. split; [exact Hcand|].
  intros Hge. eexists. split; [apply Hupd; exact Hge|]. simpl psi. split.
  - unfold norm. rewrite damped_sum_squares by exact Hlen.
    rewrite sqrt_mult; [|apply Rle_0_sqr | apply sum_squares_nonneg].
    rewrite sqrt_Rsqr_abs. reflexivity.
  - intros ->. apply damped_full. exact Hlen.
Qed.

Lemma damped_update_contracts_witness :
  exists st' psi_out,
    candidate minimize_bump (Params (1/2) (4/5) 3 (1/4) 1 (1/2) 3 2 1 1 1 0 1)
      (demo_lnz 3) (demo_z 3) (demo_state 3 [0; 0; 0; 0]) = Ok (st', psi_out)
    /\ exists st'',
         pass minimize_bump (Params (1/2) (4/5) 3 (1/4) 1 (1/2) 3 2 1 1 1 0 1)
           (demo_lnz 3) (demo_z 3) (demo_state 3 [0; 0; 0; 0]) = Ok (st'', false)
         /\ psi st'' = psi_out.
Proof.
  destruct (damped_update_contracts minimize_bump
              (Params (1/2) (4/5) 3 (1/4) 1 (1/2) 3 2 1 1 1 0 1)
              (demo_lnz 3) (demo_z 3) (demo_state 3 [0; 0; 0; 0])
              minimize_bump_shape)
    as (st' & psi_out & Hc & Hstep).
  - constructor; cbn; lia.
  - cbn. lia.
  - exists st', psi_out. split; [exact Hc|].
    destruct Hstep as (st'' & Hp & _ & Hfull).
    + match goal with |- ~ norm ?u < _ => pose proof (norm_nonneg u) end.
      cbn [psitol]. lra.
    + exists st''. split; [exact Hp | apply Hfull; reflexivity].
Defined.

(** X22. The passes keep the shapes: after any number of passes the loop
    returns a state with as many coefficients as it started with and [T]
    entries in each of [c], [k] and [lnk]. *)
Theorem loop_keeps_shapes
    (minimize : (vec -> result R) -> vec -> result vec)
    (p : params) (lnz z : vec) (st : state) (n : nat) :
  (forall f x0, exists x, minimize f x0 = Ok x /\ length x = length x0) ->
  shapes_ok p lnz z st -> (2 <= T1 p <= T p)%Z ->
  exists st' broke,
    main_loop minimize n p lnz z st = Ok (st', broke)
    /\ length (psi st') = length (psi st)
    /\ Z.of_nat (length (c st')) = T p /\ Z.of_nat (length (k st')) = T p
    /\ Z.of_nat (length (lnk st')) = T p.
Proof.
  intros Hmin Hs HT1.
  destruct (main_loop_ok minimize Hmin n p lnz z st Hs HT1) as (st' & b & H & Hs' & _).
  exists st', b. split; [exact H|].
  destruct Hs as [_ _ _ _ _ _ _ _ Hp], Hs' as [_ _ _ _ _ Hc' Hk' Hl' Hp'].
  repeat split; try assumption. lia.
Qed.

Lemma loop_keeps_shapes_witness :
  exists st' broke,
    main_loop minimize_bump 4 (demo_params 3) (demo_lnz 3) (demo_z 3)
      (demo_state 3 [0; 0; 0; 0]) = Ok (st', broke)
    /\ length (psi st') = 4%nat.
Proof.
  destruct (loop_keeps_shapes minimize_bump (demo_params 3) (demo_lnz 3) (demo_z 3)
              (demo_state 3 [0; 0; 0; 0]) 4 minimize_bump_shape
              (demo_shapes [0; 0; 0; 0] eq_refl))
    as (st' & b & H & Hp & _); [cbn; lia|].
  exists st', b. split; [exact H | exact Hp].
Defined.

(** X23. Every target of the regression is strictly positive when
    [beta > 0], [alpha > 0], [delta <= 1] and the productivity, the capital
    and the consumption (from the period 1 on) of the trajectory are
    positive (the last two keep the powers on the positive bases, where
    [Rpower] stands for [**]). *)
Theorem sample_targets_positive (p : params) (lnz z : vec) (st : state) :
  shapes_ok p lnz z st -> (2 <= T1 p <= T p)%Z ->
  0 < beta p -> 0 < alpha p -> delta p <= 1 ->
  (forall (t : nat) (v : R), z !! t = Some v -> 0 < v) ->
  (forall (t : nat) (v : R), k st !! t = Some v -> 0 < v) ->
  (forall (t : nat) (v : R), (1 <= t)%nat -> c st !! t = Some v -> 0 < v) ->
  exists Y X, build_sample p lnz z st = Ok (Y, X)
    /\ forall (j : nat) (y : R), Y !! j = Some y -> 0 < y.
Proof.
  intros Hs HT1 Hb Ha Hd Hz _ _.
  destruct (build_sample_ok p lnz z st Hs HT1) as (Y & X & Hbs & HY & _ & _ & Hrows).
  exists Y, X. split; [exact Hbs|].
  intros j y Hy.
  assert (Hj : (j < Z.to_nat (T p - T1 p))%nat)
    by (apply lookup_lt_Some in Hy; lia).
  destruct (Hrows j Hj) as (cn & zn & ki & lk & lz & _ & Hzn & _ & _ & _ & HYj & _).
  rewrite HYj in Hy. injection Hy as <-.
  pose proof (Hz _ _ Hzn) as Hzpos.
  assert (0 < Rpower cn (- nu p)) by (unfold Rpower; apply exp_pos).
  assert (0 < Rpower ki (alpha p - 1)) by (unfold Rpower; apply exp_pos).
  assert (0 < alpha p * zn * Rpower ki (alpha p - 1))
    by (apply Rmult_lt_0_compat; [apply Rmult_lt_0_compat|]; assumption).
  apply Rmult_lt_0_compat; [apply Rmult_lt_0_compat; assumption | lra].
Qed.

Lemma sample_targets_positive_witness :
  exists Y X,
    build_sample (demo_params 3) (demo_lnz 3) (demo_z 3)
      (State [0; 1; 1] [1; 1; 1] [0; 0; 0] [0; 0; 0; 0]) = Ok (Y, X)
    /\ forall (j : nat) (y : R), Y !! j = Some y -> 0 < y.
Proof.
  apply sample_targets_positive.
  - constructor; cbn; lia.
  - cbn. lia.
  - cbn. lra.
  - cbn. lra.
  - cbn. lra.
  - intros t v H. apply lookup_replicate in H. destruct H as [-> _]. lra.
  - intros [|[|[|t]]] v H; cbn in H; try discriminate; injection H as <-; lra.
  - intros [|[|[|t]]] v H1 H; cbn in H; try discriminate; try lia;
      injection H as <-; lra.
Defined.
